(** * Word guessing game: feedback engine, constraint filter, reducer, solver

    A shallow embedding of [word_guessing_game.py] and the proofs of its
    specified properties.

    Python strings are modelled as lists of characters ([list ascii]); the
    text is taken to be ASCII, so [upper] acts on the letters a..z only and
    the white space removed by [strip] is the ASCII white space of Python's
    [str.isspace].  Exceptions are values of [exn], and a function that may
    raise returns a [result]. *)

From Stdlib Require Import List Ascii String Arith Lia Bool.
From Stdlib Require Import ZArith DecimalString Sorted.
From stdpp Require Import gmap.
Import ListNotations.

Local Open Scope char_scope.
Local Open Scope nat_scope.
Local Open Scope list_scope.

(** ** Strings *)

Definition str := list ascii.

(** A string literal as a Python string. *)
Definition py (s : string) : str := list_ascii_of_string s.

(** A line of a text file: the text and its line end. *)
Definition line (s : string) : str := py s ++ ["010"].

(** ** Exceptions and results *)

Inductive exn : Type :=
| IndexError
    (* indexing a string or list out of range, [random.choice] on [[]] *)
| ValueError_substring_not_found
    (* [str.index] on a missing letter *)
| ValueError_invalid_hint (hint : ascii)
    (* "invalid character '{hint}', hints must be '!', '?', or '_'" *)
| ValueError_empty_input
    (* "input file must not be empty" *)
| WrongWordLengthException (w : str) (actual expected : nat)
    (* "invalid length of word '{w}' (actual length .., expected length ..)" *)
| Exception_no_word_left.
    (* "Whoops! Somehow no word was found to match anymore. ..." *)

Inductive result (A : Type) : Type :=
| Ok (a : A)
| Raise (e : exn).
Arguments Ok {A} a.
Arguments Raise {A} e.

Definition bind {A B : Type} (m : result A) (k : A -> result B) : result B :=
  match m with
  | Ok a => k a
  | Raise e => Raise e
  end.

Declare Scope py_scope.
Delimit Scope py_scope with py.
Notation "'let*' p ':=' m 'in' k" := (bind m (fun p => k))
  (at level 10, p pattern, m at level 100, k at level 200) : py_scope.
Local Open Scope py_scope.

(** The body of a [for] loop either goes on with the updated local
    variables or leaves the function with [return b]. *)
Inductive flow (A : Type) : Type :=
| Next (a : A)
| Return (b : bool).
Arguments Next {A} a.
Arguments Return {A} b.

(** ** String primitives *)

(** [s[i]] *)
Definition getitem (s : str) (i : nat) : result ascii :=
  match nth_error s i with
  | Some c => Ok c
  | None => Raise IndexError
  end.

(** [c in s] for a one-character string [c] *)
Definition contains (c : ascii) (s : str) : bool :=
  existsb (Ascii.eqb c) s.

(** [s.index(c)]: the first position of [c] *)
Fixpoint find_index (c : ascii) (s : str) : option nat :=
  match s with
  | [] => None
  | x :: s' => if Ascii.eqb c x then Some 0 else option_map S (find_index c s')
  end.

Definition str_index (s : str) (c : ascii) : result nat :=
  match find_index c s with
  | Some i => Ok i
  | None => Raise ValueError_substring_not_found
  end.

(** [s.replace(old, new, 1)]: the first occurrence of [old] replaced *)
Fixpoint str_replace_first (s : str) (old : ascii) (new : str) : str :=
  match s with
  | [] => []
  | x :: s' =>
      if Ascii.eqb old x then new ++ s' else x :: str_replace_first s' old new
  end.

(** ** [replace_char] *)

(** [in_str[:index] + replacement + in_str[index + 1 :]] *)
Definition replace_char (replacement in_str : str) (index : nat) : str :=
  firstn index in_str ++ replacement ++ skipn (index + 1) in_str.

(** ** [match_check] *)

(** First loop: [for index, letter in enumerate(guess)], over the string
    bound to [guess] when the loop starts ([todo], from position [index]
    on); [guess] and [correct] are the local variables rebound in the
    body. *)
Fixpoint match_exact (todo : str) (index : nat) (guess correct : str)
  : result (str * str) :=
  match todo with
  | [] => Ok (guess, correct)
  | letter :: todo' =>
      let* c := getitem correct index in
      if Ascii.eqb letter c
      then match_exact todo' (S index)
             (replace_char ["!"] guess index) (replace_char ["_"] correct index)
      else match_exact todo' (S index) guess correct
  end.

(** Second loop, over the string bound to [guess] after the first one. *)
Fixpoint match_present (todo : str) (index : nat) (guess correct : str)
  : result (str * str) :=
  match todo with
  | [] => Ok (guess, correct)
  | letter :: todo' =>
      if contains letter correct
      then
        let* corr_index := str_index correct letter in
        match_present todo' (S index)
          (replace_char ["?"] guess index)
          (replace_char ["_"] correct corr_index)
      else if negb (Ascii.eqb letter "!")
      then
        match_present todo' (S index) (replace_char ["_"] guess index) correct
      else match_present todo' (S index) guess correct
  end.

Definition match_check (guess correct : str) : result (bool * str) :=
  let* (guess, correct) := match_exact guess 0 guess correct in
  if forallb (fun l => Ascii.eqb l "!") guess
  then Ok (true, guess)
  else
    let* (guess, _) := match_present guess 0 guess correct in
    Ok (false, guess).

(** ** [check_word_vs_guess_and_hints] *)

Definition valid_hint (hint : ascii) : bool :=
  Ascii.eqb hint "!" || Ascii.eqb hint "?" || Ascii.eqb hint "_".

(** First iteration, for the definite cases. *)
Fixpoint check_definite (todo : str) (ind : nat) (word guess : str)
  : result (flow str) :=
  match todo with
  | [] => Ok (Next word)
  | hint :: todo' =>
      if negb (valid_hint hint)
      then Raise (ValueError_invalid_hint hint)
      else if Ascii.eqb hint "!"
      then
        let* g := getitem guess ind in
        let* w := getitem word ind in
        if Ascii.eqb g w
        then check_definite todo' (S ind) (replace_char ["*"] word ind) guess
        else Ok (Return false)
      else if Ascii.eqb hint "?"
      then
        let* g := getitem guess ind in
        let* w := getitem word ind in
        if Ascii.eqb g w
        then Ok (Return false)
        else check_definite todo' (S ind) word guess
      else check_definite todo' (S ind) word guess
  end.

(** Second iteration, for the more special cases. *)
Fixpoint check_special (todo : str) (ind : nat) (word guess : str)
  : result (flow str) :=
  match todo with
  | [] => Ok (Next word)
  | hint :: todo' =>
      if Ascii.eqb hint "?"
      then
        let* g := getitem guess ind in
        if contains g word
        then check_special todo' (S ind) (str_replace_first word g ["*"]) guess
        else Ok (Return false)
      else if Ascii.eqb hint "_"
      then
        let* g := getitem guess ind in
        if contains g word
        then Ok (Return false)
        else check_special todo' (S ind) word guess
      else check_special todo' (S ind) word guess
  end.

Definition check_word_vs_guess_and_hints (word guess hints : str)
  : result bool :=
  let* r := check_definite hints 0 word guess in
  match r with
  | Return b => Ok b
  | Next word =>
      let* r := check_special hints 0 word guess in
      match r with
      | Return b => Ok b
      | Next _ => Ok true
      end
  end.

(** ** [reduce_list] *)

(** The list comprehension [[w for w in in_list if check(w, guess, hints)]]:
    an exception of the check leaves the comprehension. *)
Fixpoint reduce_list (in_list : list str) (guess hints : str)
  : result (list str) :=
  match in_list with
  | [] => Ok []
  | w :: in_list' =>
      let* keep := check_word_vs_guess_and_hints w guess hints in
      let* rest := reduce_list in_list' guess hints in
      Ok (if keep then w :: rest else rest)
  end.

(** ** [reduce_list] on list objects

    A Python list is an object in the store, reached through its address;
    the strings in it are immutable values. *)

Abbreviation store := (gmap nat (list str)).

(** The items of the list at the address [l]. *)
Definition items (st : store) (l : nat) : list str := default [] (st !! l).

(** The comprehension step by step: [i] is the position of the iterator
    over the list at [in_list], [out] the address of the list being built,
    to which the words that pass the check are appended.  [fuel] bounds the
    number of steps followed. *)
Fixpoint comprehension (fuel : nat) (st : store) (in_list out i : nat)
    (guess hints : str) : option (result store) :=
  match fuel with
  | 0 => None
  | S fuel' =>
      match nth_error (items st in_list) i with
      | None => Some (Ok st)
      | Some w =>
          match check_word_vs_guess_and_hints w guess hints with
          | Raise e => Some (Raise e)
          | Ok keep =>
              comprehension fuel'
                (if keep then <[out := items st out ++ [w]]> st else st)
                in_list out (S i) guess hints
          end
      end
  end.

(** [reduce_list] called with the address of a list: the result is the
    address of a new list, and the store after the call. *)
Definition reduce_list_in (fuel : nat) (st : store) (in_list : nat)
    (guess hints : str) : option (result (store * nat)) :=
  let out := fresh (dom st) in
  match comprehension fuel (<[out := []]> st) in_list out 0 guess hints with
  | None => None
  | Some (Raise e) => Some (Raise e)
  | Some (Ok st') => Some (Ok (st', out))
  end.

(** ** [read_file_as_words_list] *)

(** [c.isspace()] on ASCII: tab, line feed, vertical tab, form feed,
    carriage return, the four separators 28..31 and the space. *)
Definition is_space (c : ascii) : bool :=
  let n := nat_of_ascii c in
  ((9 <=? n) && (n <=? 13)) || ((28 <=? n) && (n <=? 32)).

Fixpoint lstrip (s : str) : str :=
  match s with
  | [] => []
  | c :: s' => if is_space c then lstrip s' else s
  end.

Definition rstrip (s : str) : str := rev (lstrip (rev s)).

(** [s.strip()] *)
Definition strip (s : str) : str := rstrip (lstrip s).

Definition upper_char (c : ascii) : ascii :=
  let n := nat_of_ascii c in
  if (97 <=? n) && (n <=? 122) then ascii_of_nat (n - 32) else c.

(** [s.upper()] *)
Definition upper (s : str) : str := map upper_char s.

(** [s.startswith(prefix)] *)
Fixpoint startswith (s prefix : str) {struct prefix} : bool :=
  match prefix, s with
  | [], _ => true
  | _ :: _, [] => false
  | p :: prefix', c :: s' => Ascii.eqb p c && startswith s' prefix'
  end.

(** Truth value of a string: it is not empty. *)
Definition truthy (s : str) : bool :=
  match s with
  | [] => false
  | _ :: _ => true
  end.

(** The condition of the comprehension of the checking branch. *)
Definition kept_line (comment_char w : str) : bool :=
  negb (startswith w comment_char) && truthy (strip w).

(** The comprehension of the checking branch, bound to [words]. *)
Definition kept_words (comment_char : str) (file : list str) : list str :=
  map (fun w => upper (strip w)) (List.filter (kept_line comment_char) file).

(** [for w in words: if len(w) != base_len: raise ...] *)
Fixpoint check_lengths (words : list str) (base_len : nat) : result unit :=
  match words with
  | [] => Ok tt
  | w :: words' =>
      if negb (length w =? base_len)
      then Raise (WrongWordLengthException w (length w) base_len)
      else check_lengths words' base_len
  end.

(** [file] is the content of the opened file, as the lines its iteration
    yields (each with its line end).  Finding and opening the file is not
    modelled. *)
Definition read_file_as_words_list
    (file : list str) (check_input : bool) (comment_char : str)
  : result (list str) :=
  if check_input
  then
    let words := kept_words comment_char file in
    let* base_len :=
      match nth_error words 0 with
      | Some w => Ok (length w)
      | None => Raise ValueError_empty_input
      end in
    let* _ := check_lengths words base_len in
    Ok words
  else Ok (map (fun w => upper (strip w)) file).

(** ** [game_routine], with the automatic solver *)

(** Truth value of a list: it is not empty. *)
Definition truthy_list (l : list str) : bool :=
  match l with
  | [] => false
  | _ :: _ => true
  end.

(** [random.choice(seq)]: [r] is the number drawn from the generator. *)
Definition random_choice (r : nat) (seq : list str) : result str :=
  match seq with
  | [] => Raise IndexError
  | _ :: _ =>
      match nth_error seq (r mod length seq) with
      | Some w => Ok w
      | None => Raise IndexError
      end
  end.

(** The [while True] loop of [game_routine] for [auto_solver=True].  [rnd]
    is the stream of numbers the random generator will deliver; [fuel]
    bounds the number of iterations the model follows, and [None] says that
    the loop was still running when it ran out.  The text printed and the
    two lists of letters kept only for printing are left out: they do not
    influence the guesses, the counter or the exceptions. *)
Fixpoint game_loop (fuel : nat) (rnd : nat -> nat) (words : list str)
    (correct : str) (counter : nat) : option (result nat) :=
  match fuel with
  | 0 => None
  | S fuel' =>
      match random_choice (rnd 0) words with
      | Raise e => Some (Raise e)
      | Ok guess =>
          match match_check guess correct with
          | Raise e => Some (Raise e)
          | Ok (state, hints) =>
              if state
              then Some (Ok counter)
              else
                match reduce_list words guess hints with
                | Raise e => Some (Raise e)
                | Ok words' =>
                    if negb (truthy_list words')
                    then Some (Raise Exception_no_word_left)
                    else game_loop fuel' (fun n => rnd (S n)) words' correct
                           (counter + 1)
                end
          end
      end
  end.

Definition game_routine (fuel : nat) (rnd : nat -> nat) (words : list str)
    (correct : str) : option (result nat) :=
  game_loop fuel rnd words correct 1.

(** ** [find_words_in_dict] *)

(** The loop over the pairs of a guess and its hints.  [None] is the value
    of the bare [return] taken when no word is left.  A pair stands for the
    two-element list [[guess, hints]]; the messages printed are not
    modelled. *)
Fixpoint find_words_loop (guesses_and_hints : list (str * str))
    (words : list str) : result (option (list str)) :=
  match guesses_and_hints with
  | [] => Ok (Some words)
  | guess_hint :: rest =>
      let* words :=
        reduce_list words (upper (fst guess_hint)) (snd guess_hint) in
      if negb (truthy_list words)
      then Ok None
      else find_words_loop rest words
  end.

Definition find_words_in_dict (guesses_and_hints : list (str * str))
    (file : list str) (check_input : bool) (comment_char : str)
  : result (option (list str)) :=
  let* words := read_file_as_words_list file check_input comment_char in
  find_words_loop guesses_and_hints words.

(** ** The console: [input_check], [yn_prompt], [game_routine], [main]

    The functions that talk to the user are modelled on a console: the
    lines that will be typed and the texts written so far.  [input] at the
    end of the typed lines raises [EOFError], as it does at the end of a
    file.  Loops take a bound [fuel] on their number of iterations and
    return [None] when it is used up. *)

Module Console.

Record console : Type := {
  stdin : list str;   (* the lines still to be typed, without line ends *)
  stdout : list str   (* the texts written, the oldest first *)
}.

Inductive failure : Type :=
| EOFError
| Python (e : exn).

Inductive outcome (A : Type) : Type :=
| Returned (a : A) (c : console)
| Raised (e : failure) (c : console).
Arguments Returned {A} a c.
Arguments Raised {A} e c.

(** [print(text)] *)
Definition print (text : str) (c : console) : console :=
  {| stdin := stdin c; stdout := stdout c ++ [text ++ ["010"]] |}.

(** [input(prompt)] *)
Definition input (prompt : str) (c : console) : outcome str :=
  match stdin c with
  | [] => Raised EOFError {| stdin := []; stdout := stdout c ++ [prompt] |}
  | usr :: rest =>
      Returned usr {| stdin := rest; stdout := stdout c ++ [prompt] |}
  end.

(** [f"{n}"] *)
Definition str_of_nat (n : nat) : str :=
  py (NilZero.string_of_uint (Nat.to_uint n)).

(** [s[-1]] *)
Definition getitem_last (s : str) : result ascii :=
  match s with
  | [] => Raise IndexError
  | _ :: _ => getitem s (length s - 1)
  end.

(** [a == b] on strings *)
Fixpoint str_eqb (a b : str) : bool :=
  match a, b with
  | [], [] => true
  | x :: a', y :: b' => Ascii.eqb x y && str_eqb a' b'
  | _, _ => false
  end.

(** [x in l] for a list [l] of strings *)
Definition str_in (x : str) (l : list str) : bool := existsb (str_eqb x) l.

Definition lower_char (c : ascii) : ascii :=
  let n := nat_of_ascii c in
  if (65 <=? n) && (n <=? 90) then ascii_of_nat (n + 32) else c.

(** [s.lower()] *)
Definition lower (s : str) : str := map lower_char s.

(** *** [input_check] *)

Fixpoint input_check_loop (fuel : nat) (length : option nat) (prompt : str)
    (c : console) : option (outcome str) :=
  match fuel with
  | 0 => None
  | S fuel' =>
      match input prompt c with
      | Raised e c => Some (Raised e c)
      | Returned usr c =>
          match length with
          | Some n =>
              if negb (List.length usr =? n)
              then
                input_check_loop fuel' length prompt
                  (print (py "Input must have a length of " ++ str_of_nat n
                          ++ py " characters.") c)
              else Some (Returned usr c)
          | None => Some (Returned usr c)
          end
      end
  end.

Definition input_check (fuel : nat) (length : option nat)
    (prompt : option str) (trail_whitespace : bool) (c : console)
  : option (outcome str) :=
  match
    match prompt with
    | None => Ok []
    | Some prompt =>
        if trail_whitespace
        then
          let* l := getitem_last prompt in
          if negb (Ascii.eqb l " ") then Ok (prompt ++ [" "]) else Ok prompt
        else Ok prompt
    end
  with
  | Raise e => Some (Raised (Python e) c)
  | Ok prompt => input_check_loop fuel length prompt c
  end.

(** *** [yn_prompt] *)

Fixpoint yn_prompt_loop (fuel : nat) (prompt : str) (opt : Z)
    (verbose : bool) (c : console) : option (outcome bool) :=
  match fuel with
  | 0 => None
  | S fuel' =>
      match input prompt c with
      | Raised e c => Some (Raised e c)
      | Returned inp c =>
          if (negb (truthy inp) && (opt =? 1)%Z)
             || startswith (lower inp) (py "y")
          then Some (Returned true c)
          else if (negb (truthy inp) && (opt =? 0)%Z)
                  || startswith (lower inp) (py "n")
          then Some (Returned false c)
          else
            yn_prompt_loop fuel' prompt opt verbose
              (if verbose
               then print (py "Not understood. Please try again.") c
               else c)
      end
  end.

(** [default] is [None] or a string: the check [isinstance(default, str)]
    cannot fail. *)
Definition yn_prompt (fuel : nat) (prompt : str) (default : option str)
    (verbose : bool) (c : console) : option (outcome bool) :=
  let '(deflt, opt, c) :=
    match default with
    | None => (py " [y/n] ", (-1)%Z, c)
    | Some default =>
        if str_in (lower default) [py "y"; py "yes"]
        then (py " [Y/n] ", 1%Z, c)
        else if str_in (lower default) [py "n"; py "no"]
        then (py " [y/N] ", 0%Z, c)
        else
          (py " [y/n] ", (-1)%Z,
           if verbose
           then print (py "`default` parameter not recognized.") c
           else c)
    end
  in
  yn_prompt_loop fuel (prompt ++ deflt) opt verbose c.

(** *** [game_routine] *)

(** [for l in guess: ...]: the letters of the guess go to one of the two
    lists. *)
Fixpoint sort_out_letters (guess correct : str)
    (correct_letters wrong_letters : list ascii)
  : list ascii * list ascii :=
  match guess with
  | [] => (correct_letters, wrong_letters)
  | l :: guess' =>
      if contains l correct
      then sort_out_letters guess' correct (correct_letters ++ [l])
             wrong_letters
      else sort_out_letters guess' correct correct_letters
             (wrong_letters ++ [l])
  end.

Fixpoint insert_letter (l : ascii) (sorted : list ascii) : list ascii :=
  match sorted with
  | [] => [l]
  | x :: sorted' =>
      if nat_of_ascii l <? nat_of_ascii x then l :: sorted
      else if nat_of_ascii l =? nat_of_ascii x then sorted
      else x :: insert_letter l sorted'
  end.

(** [letters = list(set(letters))] followed by [letters.sort()]: the
    distinct letters in the order of their codes. *)
Definition sorted_set (letters : list ascii) : list ascii :=
  fold_right insert_letter [] letters.

Definition hex_digit (n : nat) : ascii := nth n (py "0123456789abcdef") "0".

(** [repr(c)] for a string of one ASCII character *)
Definition repr_char (c : ascii) : str :=
  let n := nat_of_ascii c in
  if Ascii.eqb c "'" then ["034"; "'"; "034"]
  else if Ascii.eqb c "\" then py "'\\'"
  else if n =? 9 then py "'\t'"
  else if n =? 10 then py "'\n'"
  else if n =? 13 then py "'\r'"
  else if (n <? 32) || (n =? 127)
  then py "'\x" ++ [hex_digit (n / 16); hex_digit (n mod 16)] ++ py "'"
  else ["'"; c; "'"].

Fixpoint join (sep : str) (l : list str) : str :=
  match l with
  | [] => []
  | [x] => x
  | x :: l' => x ++ sep ++ join sep l'
  end.

(** [f"{letters}"] for a list of one-character strings *)
Definition repr_list (letters : list ascii) : str :=
  py "[" ++ join (py ", ") (map repr_char letters) ++ py "]".

Definition won_message (counter : nat) : str :=
  if counter =? 1
  then py "Woah, first try! Way too much luck. Congratulations!"
  else if counter =? 2
  then py "Very nice! Only two guesses needed."
  else if counter <? 7
  then py "Nice! You got it after " ++ str_of_nat counter ++ py " tries."
  else py "You go it! It took you " ++ str_of_nat counter ++ py " tries.".

(** How an iteration of the loop gets its guess. *)
Inductive asked : Type :=
| Guess (guess : str) (rnd : nat -> nat) (c : console)
| Again (c : console)                  (* [continue]: not in the dictionary *)
| Failed (e : failure) (c : console)
| Unfinished.

Definition ask (fuel : nat) (rnd : nat -> nat) (c : console)
    (words : list str) (corr_length : nat)
    (allow_wild_guess auto_solver : bool) (prompt : option str) : asked :=
  if auto_solver
  then
    match random_choice (rnd 0) words with
    | Raise e => Failed (Python e) c
    | Ok guess => Guess guess (fun n => rnd (S n)) (print guess c)
    end
  else
    match input_check fuel (Some corr_length) prompt false c with
    | None => Unfinished
    | Some (Raised e c) => Failed e c
    | Some (Returned usr c) =>
        let guess := upper usr in
        if negb allow_wild_guess && negb (str_in guess words)
        then Again (print (py "Word is not part of the dictionary!") c)
        else Guess guess rnd c
    end.

(** The line printed after a guess: [print(hints, f" out: {wrong_letters}")]
    or [print(hints)]. *)
Definition print_hints (show_wrong_letters : bool) (corr_length : nat)
    (hints : str) (wrong_letters : list ascii) (c : console) : console :=
  if show_wrong_letters && negb (str_eqb hints (repeat "!" corr_length))
  then print (hints ++ py " " ++ py " out: " ++ repr_list wrong_letters) c
  else print hints c.

Fixpoint game_loop (fuel : nat) (rnd : nat -> nat) (c : console)
    (words : list str) (correct : str) (corr_length : nat)
    (allow_wild_guess show_wrong_letters auto_solver : bool)
    (prompt : option str) (counter : nat)
    (correct_letters wrong_letters : list ascii) : option (outcome nat) :=
  match fuel with
  | 0 => None
  | S fuel' =>
      match
        ask fuel' rnd c words corr_length allow_wild_guess auto_solver prompt
      with
      | Unfinished => None
      | Failed e c => Some (Raised e c)
      | Again c =>
          game_loop fuel' rnd c words correct corr_length allow_wild_guess
            show_wrong_letters auto_solver prompt counter
            correct_letters wrong_letters
      | Guess guess rnd c =>
          let '(correct_letters, wrong_letters) :=
            sort_out_letters guess correct correct_letters wrong_letters in
          let correct_letters := sorted_set correct_letters in
          let wrong_letters := sorted_set wrong_letters in
          match match_check guess correct with
          | Raise e => Some (Raised (Python e) c)
          | Ok (state, hints) =>
              let c :=
                print_hints show_wrong_letters corr_length hints
                  wrong_letters c in
              if state
              then Some (Returned counter (print (won_message counter) c))
              else if auto_solver
              then
                match reduce_list words guess hints with
                | Raise e => Some (Raised (Python e) c)
                | Ok words =>
                    if negb (truthy_list words)
                    then Some (Raised (Python Exception_no_word_left) c)
                    else
                      game_loop fuel' rnd c words correct corr_length
                        allow_wild_guess show_wrong_letters auto_solver
                        prompt (counter + 1) correct_letters wrong_letters
                end
              else
                game_loop fuel' rnd c words correct corr_length
                  allow_wild_guess show_wrong_letters auto_solver prompt
                  (counter + 1) correct_letters wrong_letters
          end
      end
  end.

Definition game_routine (fuel : nat) (rnd : nat -> nat) (c : console)
    (words : list str) (correct : str) (corr_length : nat)
    (allow_wild_guess show_wrong_letters auto_solver : bool)
    (prompt : option str) : option (outcome nat) :=
  game_loop fuel rnd c words correct corr_length allow_wild_guess
    show_wrong_letters auto_solver prompt 1 [] [].

(** *** [main] *)

Definition introduction (corr_length : nat) : str :=
  py "Use guessing and then provided hints to find this word: '"
  ++ repeat "*" corr_length ++ py "' (length " ++ str_of_nat corr_length
  ++ py ")" ++ ["010"]
  ++ py "(Input is automatically converted into uppercase.)" ++ ["010"]
  ++ py "Explanation of hints: [`!`: matching letter and position; `?`: "
  ++ py "matching letter at wrong position; `_`: wrong/surplus letter]".

Fixpoint main_loop (fuel : nat) (rnd : nat -> nat) (c : console)
    (words : list str)
    (allow_wild_guess show_wrong_letters auto_solver : bool)
    (prompt : option str) (tries : list nat) : option (outcome (list nat)) :=
  match fuel with
  | 0 => None
  | S fuel' =>
      match random_choice (rnd 0) words with
      | Raise e => Some (Raised (Python e) c)
      | Ok correct =>
          let rnd := fun n => rnd (S n) in
          let corr_length := length correct in
          let c := print (introduction corr_length) c in
          let c :=
            if auto_solver
            then print (py "NOTE: Automatic solving enabled") c
            else c in
          match
            game_routine fuel' rnd c words correct corr_length
              allow_wild_guess show_wrong_letters auto_solver prompt
          with
          | None => None
          | Some (Raised e c) => Some (Raised e c)
          | Some (Returned counter c) =>
              let tries := tries ++ [counter] in
              if negb auto_solver
              then
                match yn_prompt fuel' (py "Play again?") (Some (py "y"))
                        false c with
                | None => None
                | Some (Raised e c) => Some (Raised e c)
                | Some (Returned true c) =>
                    main_loop fuel' rnd c words allow_wild_guess
                      show_wrong_letters auto_solver prompt tries
                | Some (Returned false c) => Some (Returned tries c)
                end
              else Some (Returned tries c)
          end
      end
  end.

(** [file] is the content of the dictionary file, as for
    [read_file_as_words_list]. *)
Definition main (fuel : nat) (rnd : nat -> nat) (c : console)
    (file : list str)
    (allow_wild_guess show_wrong_letters auto_solver check_input : bool)
    (comment_char : str) (prompt : option str)
  : option (outcome (list nat)) :=
  match read_file_as_words_list file check_input comment_char with
  | Raise e => Some (Raised (Python e) c)
  | Ok words =>
      main_loop fuel rnd c words allow_wild_guess show_wrong_letters
        auto_solver prompt []
  end.

End Console.

(** * Vocabulary of the proofs *)

(** ** The loops without their position counters

    Each loop walks through its strings position by position; the functions
    below do the same by recursion on the strings themselves, and the
    lemmas after them show that the loops compute exactly these. *)

(** [guess] after the first loop of [match_check]. *)
Fixpoint exact_marks (guess correct : str) : str :=
  match guess, correct with
  | g :: guess', c :: correct' =>
      (if Ascii.eqb g c then "!" else g) :: exact_marks guess' correct'
  | _, _ => guess
  end.

(** [correct] after the first loop of [match_check]. *)
Fixpoint exact_rest (guess correct : str) : str :=
  match guess, correct with
  | g :: guess', c :: correct' =>
      (if Ascii.eqb g c then "_" else c) :: exact_rest guess' correct'
  | _, _ => correct
  end.

(** [guess] and [correct] after the second loop of [match_check]. *)
Fixpoint present_marks (guess correct : str) : str * str :=
  match guess with
  | [] => ([], correct)
  | letter :: guess' =>
      if contains letter correct
      then
        let '(h, c) :=
          present_marks guess' (str_replace_first correct letter ["_"]) in
        ("?" :: h, c)
      else
        let '(h, c) := present_marks guess' correct in
        ((if negb (Ascii.eqb letter "!") then "_" else letter) :: h, c)
  end.

Definition map_next (f : str -> str) (r : result (flow str))
  : result (flow str) :=
  match r with
  | Ok (Next w) => Ok (Next (f w))
  | _ => r
  end.

(** The first loop of the filter, for hints not longer than guess and
    word. *)
Fixpoint definite_marks (hints guess word : str) : result (flow str) :=
  match hints, guess, word with
  | [], _, _ => Ok (Next word)
  | hint :: hints', g :: guess', w :: word' =>
      if negb (valid_hint hint)
      then Raise (ValueError_invalid_hint hint)
      else if Ascii.eqb hint "!"
      then
        if Ascii.eqb g w
        then map_next (cons "*") (definite_marks hints' guess' word')
        else Ok (Return false)
      else if Ascii.eqb hint "?"
      then
        if Ascii.eqb g w
        then Ok (Return false)
        else map_next (cons w) (definite_marks hints' guess' word')
      else map_next (cons w) (definite_marks hints' guess' word')
  | _ :: _, _, _ => Raise IndexError
  end.

(** The second loop of the filter, for hints not longer than the guess. *)
Fixpoint special_marks (hints guess word : str) : result (flow str) :=
  match hints, guess with
  | [], _ => Ok (Next word)
  | hint :: hints', g :: guess' =>
      if Ascii.eqb hint "?"
      then
        if contains g word
        then special_marks hints' guess' (str_replace_first word g ["*"])
        else Ok (Return false)
      else if Ascii.eqb hint "_"
      then
        if contains g word
        then Ok (Return false)
        else special_marks hints' guess' word
      else special_marks hints' guess' word
  | _ :: _, [] => Raise IndexError
  end.

(** ** Words of upper-case letters *)

Definition is_upper (c : ascii) : bool :=
  let n := nat_of_ascii c in (65 <=? n) && (n <=? 90).

Definition uppercase (w : str) : Prop := forallb is_upper w = true.

(** The hint a guess receives: the marks left by the two loops. *)
Definition hint_of (guess correct : str) : str :=
  fst (present_marks (exact_marks guess correct) (exact_rest guess correct)).

(** What the first loop of [match_check] leaves at a position of the guess:
    the mark of an exact match or the letter itself. *)
Definition marked (x g : ascii) : Prop :=
  (x = "!" \/ x = g) /\ is_upper g = true.

(** The scratch copies of the target kept by [match_check] and by the filter
    agree but for the character that stands for a used letter. *)
Definition same_scratch (a b : ascii) : Prop :=
  (a = "_" /\ b = "*") \/ (a = b /\ is_upper a = true).

(** The hint at a position, from the letters of guess and target there. *)
Definition hint_at (gt : ascii * ascii) (k : ascii) : Prop :=
  if Ascii.eqb (fst gt) (snd gt) then k = "!" else k = "?" \/ k = "_".

(** The number of positions marked [!] or [?] whose guess letter is [c]. *)
Definition claimed (c : ascii) (guess hint : str) : nat :=
  length
    (List.filter
       (fun gh =>
          Ascii.eqb (fst gh) c &&
          (Ascii.eqb (snd gh) "!" || Ascii.eqb (snd gh) "?"))
       (combine guess hint)).

(** The positions where guess and target both have the letter [c]. *)
Definition exact_claims (c : ascii) (guess target : str) : nat :=
  length
    (List.filter
       (fun gt => Ascii.eqb (fst gt) c && Ascii.eqb (fst gt) (snd gt))
       (combine guess target)).

(** The positions marked [?] whose guess letter is [c]. *)
Definition present_claims (c : ascii) (guess hint : str) : nat :=
  length
    (List.filter
       (fun gh => Ascii.eqb (fst gh) c && Ascii.eqb (snd gh) "?")
       (combine guess hint)).

(** An upper-case word of [n] letters, and a dictionary of such words. *)
Definition word_of (n : nat) (w : str) : bool :=
  forallb is_upper w && (length w =? n).

Definition dictionary_of (n : nat) (ws : list str) : Prop :=
  forallb (word_of n) ws = true.

(** The verdict of the filter as a test on words: [true] when the filter
    returns [True]. *)
Definition accepts (guess hints w : str) : bool :=
  match check_word_vs_guess_and_hints w guess hints with
  | Ok true => true
  | _ => false
  end.

(** The filter returns a verdict on [w], it does not raise. *)
Definition returns (guess hints w : str) : bool :=
  match check_word_vs_guess_and_hints w guess hints with
  | Ok _ => true
  | Raise _ => false
  end.

(** The word passes the filter for every pair of a guess and hints, the
    guess put in upper case. *)
Definition matches_all (guesses_and_hints : list (str * str)) (w : str)
  : bool :=
  forallb (fun gh => accepts (upper (fst gh)) (snd gh) w) guesses_and_hints.

(** What [find_words_in_dict] returns for the words that match. *)
Definition found (guesses_and_hints : list (str * str)) (m : list str)
  : option (list str) :=
  match guesses_and_hints, m with
  | _ :: _, [] => None
  | _, _ => Some m
  end.

(** The pair is a guess of [n] letters with the hints it gets for the
    target. *)
Definition feedback_for (target : str) (n : nat) (gh : str * str) : Prop :=
  word_of n (upper (fst gh)) = true /\
  exists state, match_check (upper (fst gh)) target = Ok (state, snd gh).

(** What [yn_prompt] makes of its parameter [default]. *)
Definition default_answer (default : option str) : option bool :=
  match default with
  | None => None
  | Some d =>
      if Console.str_in (Console.lower d) [py "y"; py "yes"] then Some true
      else if Console.str_in (Console.lower d) [py "n"; py "no"]
      then Some false
      else None
  end.

(** What one typed answer means to [yn_prompt]: yes when it starts with y
    or Y; for the empty answer, the default; no when it starts with n or N;
    otherwise nothing, and the question is asked again. *)
Definition yn_reading (default : option str) (inp : str) : option bool :=
  if startswith (Console.lower inp) (py "y") then Some true
  else if negb (truthy inp) then default_answer default
  else if startswith (Console.lower inp) (py "n") then Some false
  else None.

(** A typed line counts as a guess of the game played by hand: it has the
    required length and, unless any guess is allowed, its upper-case form is
    a word of the dictionary. *)
Definition taken (words : list str) (corr_length : nat)
    (allow_wild_guess : bool) (typed : str) : bool :=
  (length typed =? corr_length)
  && (allow_wild_guess || Console.str_in (upper typed) words).

(** A typed line is reported as a full match. *)
Definition wins (correct typed : str) : bool :=
  match match_check (upper typed) correct with
  | Ok (true, _) => true
  | _ => false
  end.

(** The order of the characters by their codes. *)
Definition code_lt (a b : ascii) : Prop := nat_of_ascii a < nat_of_ascii b.

(** The guess has the letter of the target, or the character [!]. *)
Definition exact_or_bang (g t : ascii) : Prop := g = t \/ g = "!".

(** What the first loop of the filter leaves of the guess checked against
    itself: an unmarked letter stays in the word. *)
Definition left_in (w : str) (k x : ascii) : Prop :=
  (k = "!" \/ k = "_") /\ (k = "_" -> In x w).

(** * Proofs *)

#[local] Arguments Ascii.eqb !a !b : simpl nomatch.
#[local] Arguments ascii_dec : simpl never.

Section Primitives.

Lemma replace_char_here (r pre post : str) (x : ascii) (i : nat) :
  i = length pre ->
  replace_char r (pre ++ x :: post) i = pre ++ r ++ post.
Proof.
  intros ->. unfold replace_char.
  induction pre as [|p pre IH]; simpl.
  - reflexivity.
  - now rewrite IH.
Qed.

Lemma replace_char_cons (r s : str) (x : ascii) (i : nat) :
  replace_char r (x :: s) (S i) = x :: replace_char r s i.
Proof. reflexivity. Qed.

Lemma getitem_here (pre post : str) (x : ascii) (i : nat) :
  i = length pre -> getitem (pre ++ x :: post) i = Ok x.
Proof.
  intros ->. unfold getitem.
  induction pre as [|p pre IH]; simpl; [reflexivity | exact IH].
Qed.

Lemma getitem_end (s : str) : getitem s (length s) = Raise IndexError.
Proof.
  unfold getitem.
  induction s as [|p s IH]; simpl; [reflexivity | exact IH].
Qed.

Lemma snoc_app {A : Type} (pre post : list A) (x : A) :
  pre ++ x :: post = (pre ++ [x]) ++ post.
Proof. now rewrite <- app_assoc. Qed.

(** [s.index(c)] followed by [replace_char] is [s.replace(c, r, 1)]. *)
Lemma index_then_replace (r s : str) (c : ascii) :
  contains c s = true ->
  exists i, str_index s c = Ok i /\
            replace_char r s i = str_replace_first s c r.
Proof.
  unfold str_index.
  induction s as [|x s IH]; simpl; [discriminate|].
  destruct (Ascii.eqb c x) eqn:E; simpl.
  - intros _. exists 0. split; reflexivity.
  - intros H. destruct (IH H) as (i & Hi & Hr).
    destruct (find_index c s) as [j|]; [|discriminate].
    injection Hi as ->. exists (S i). split; [reflexivity|].
    now rewrite replace_char_cons, Hr.
Qed.

Lemma contains_In (c : ascii) (s : str) : contains c s = true <-> In c s.
Proof.
  unfold contains. rewrite existsb_exists. split.
  - intros (x & Hx & E). apply Ascii.eqb_eq in E. now subst.
  - intros H. exists c. split; [exact H | apply Ascii.eqb_refl].
Qed.

End Primitives.

Section Loops.

Lemma match_exact_spec (todo tc pg pc : str) (i : nat) :
  i = length pg -> i = length pc -> length todo <= length tc ->
  match_exact todo i (pg ++ todo) (pc ++ tc)
  = Ok (pg ++ exact_marks todo tc, pc ++ exact_rest todo tc).
Proof.
  revert tc pg pc i.
  induction todo as [|letter todo IH]; intros tc pg pc i Hg Hc Hl; simpl.
  - now destruct tc.
  - destruct tc as [|c tc]; simpl in Hl; [lia|].
    rewrite getitem_here by exact Hc. simpl.
    destruct (Ascii.eqb letter c).
    + rewrite !replace_char_here by assumption. simpl.
      rewrite (snoc_app pg), (snoc_app pc).
      rewrite IH by (rewrite ?length_app; simpl; lia).
      now rewrite <- !app_assoc.
    + rewrite (snoc_app pg), (snoc_app pc).
      rewrite IH by (rewrite ?length_app; simpl; lia).
      now rewrite <- !app_assoc.
Qed.

Lemma match_exact_short (todo tc pc guess : str) (i : nat) :
  i = length pc -> length tc < length todo ->
  match_exact todo i guess (pc ++ tc) = Raise IndexError.
Proof.
  revert tc pc guess i.
  induction todo as [|letter todo IH]; intros tc pc guess i Hc Hl;
    simpl in *.
  - lia.
  - destruct tc as [|c tc]; simpl in Hl.
    + subst i. now rewrite app_nil_r, getitem_end.
    + rewrite getitem_here by exact Hc. simpl.
      destruct (Ascii.eqb letter c).
      * rewrite (replace_char_here _ pc) by exact Hc. simpl.
        rewrite (snoc_app pc).
        apply IH; [rewrite length_app; simpl; lia | lia].
      * rewrite (snoc_app pc).
        apply IH; [rewrite length_app; simpl; lia | lia].
Qed.

Lemma match_present_spec (todo pre correct : str) (i : nat) :
  i = length pre ->
  match_present todo i (pre ++ todo) correct
  = Ok (pre ++ fst (present_marks todo correct),
        snd (present_marks todo correct)).
Proof.
  revert pre correct i.
  induction todo as [|letter todo IH]; intros pre correct i Hi; simpl.
  - reflexivity.
  - destruct (contains letter correct) eqn:E.
    + destruct (index_then_replace ["_"] correct letter E) as (j & Hj & Hr).
      rewrite Hj. simpl. rewrite Hr, replace_char_here by exact Hi. simpl.
      rewrite (snoc_app pre).
      rewrite IH by (rewrite length_app; simpl; lia).
      destruct (present_marks todo _) as [h c]. simpl.
      now rewrite <- app_assoc.
    + destruct (negb (Ascii.eqb letter "!")).
      * rewrite replace_char_here by exact Hi. simpl.
        rewrite (snoc_app pre).
        rewrite IH by (rewrite length_app; simpl; lia).
        destruct (present_marks todo _) as [h c]. simpl.
        now rewrite <- app_assoc.
      * rewrite (snoc_app pre).
        rewrite IH by (rewrite length_app; simpl; lia).
        destruct (present_marks todo _) as [h c]. simpl.
        now rewrite <- app_assoc.
Qed.

(** [match_check] without loops, whenever the guess is not longer than
    the word it is compared with. *)
Lemma match_check_spec (guess correct : str) :
  length guess <= length correct ->
  match_check guess correct =
    if forallb (fun l => Ascii.eqb l "!") (exact_marks guess correct)
    then Ok (true, exact_marks guess correct)
    else Ok (false, fst (present_marks (exact_marks guess correct)
                           (exact_rest guess correct))).
Proof.
  intros Hl. unfold match_check.
  pose proof (match_exact_spec guess correct [] [] 0 eq_refl eq_refl Hl)
    as H1.
  simpl in H1. rewrite H1. simpl.
  destruct (forallb _ _); [reflexivity|].
  pose proof (match_present_spec (exact_marks guess correct) []
                (exact_rest guess correct) 0 eq_refl) as H2.
  simpl in H2. rewrite H2. reflexivity.
Qed.

Lemma map_next_snoc (pre : str) (x : ascii) (r : result (flow str)) :
  map_next (app (pre ++ [x])) r = map_next (app pre) (map_next (cons x) r).
Proof.
  destruct r as [[w|b]|e]; simpl; try reflexivity.
  now rewrite <- app_assoc.
Qed.

Lemma check_definite_spec (todo gs ws pg pw : str) (i : nat) :
  i = length pg -> i = length pw ->
  length todo <= length gs -> length todo <= length ws ->
  check_definite todo i (pw ++ ws) (pg ++ gs)
  = map_next (app pw) (definite_marks todo gs ws).
Proof.
  revert gs ws pg pw i.
  induction todo as [|hint todo IH]; intros gs ws pg pw i Hg Hw Lg Lw;
    simpl.
  - reflexivity.
  - destruct gs as [|g gs]; simpl in Lg; [lia|].
    destruct ws as [|w ws]; simpl in Lw; [lia|].
    destruct (negb (valid_hint hint)); [reflexivity|].
    rewrite !getitem_here by assumption. simpl.
    destruct (Ascii.eqb hint "!").
    + destruct (Ascii.eqb g w); [|reflexivity].
      rewrite replace_char_here by assumption. simpl.
      rewrite (snoc_app pg), (snoc_app pw).
      rewrite IH by (rewrite ?length_app; simpl; lia).
      apply map_next_snoc.
    + destruct (Ascii.eqb hint "?").
      * destruct (Ascii.eqb g w); [reflexivity|].
        rewrite (snoc_app pg), (snoc_app pw).
        rewrite IH by (rewrite ?length_app; simpl; lia).
        apply map_next_snoc.
      * rewrite (snoc_app pg), (snoc_app pw).
        rewrite IH by (rewrite ?length_app; simpl; lia).
        apply map_next_snoc.
Qed.

Lemma check_special_spec (todo gs pg word : str) (i : nat) :
  i = length pg -> length todo <= length gs ->
  check_special todo i word (pg ++ gs) = special_marks todo gs word.
Proof.
  revert gs pg word i.
  induction todo as [|hint todo IH]; intros gs pg word i Hg Lg; simpl.
  - reflexivity.
  - destruct gs as [|g gs]; simpl in Lg; [lia|].
    rewrite !getitem_here by assumption. simpl.
    rewrite (snoc_app pg).
    destruct (Ascii.eqb hint "?").
    + destruct (contains g word); [|reflexivity].
      apply IH; [rewrite length_app; simpl; lia | lia].
    + destruct (Ascii.eqb hint "_").
      * destruct (contains g word); [reflexivity|].
        apply IH; [rewrite length_app; simpl; lia | lia].
      * apply IH; [rewrite length_app; simpl; lia | lia].
Qed.

(** The filter without loops, whenever the hints are not longer than the
    guess and the word. *)
Lemma check_spec (word guess hints : str) :
  length hints <= length guess -> length hints <= length word ->
  check_word_vs_guess_and_hints word guess hints =
    let* r := definite_marks hints guess word in
    match r with
    | Return b => Ok b
    | Next word' =>
        let* r := special_marks hints guess word' in
        match r with
        | Return b => Ok b
        | Next _ => Ok true
        end
    end.
Proof.
  intros Lg Lw. unfold check_word_vs_guess_and_hints.
  pose proof (check_definite_spec hints guess word [] [] 0
                eq_refl eq_refl Lg Lw) as H1.
  simpl in H1. rewrite H1.
  destruct (definite_marks hints guess word) as [[w|b]|e]; simpl;
    try reflexivity.
  pose proof (check_special_spec hints guess [] w 0 eq_refl Lg) as H2.
  simpl in H2. now rewrite H2.
Qed.

End Loops.

(** ** Words of upper-case letters *)

Section Letters.

Lemma uppercase_cons (c : ascii) (w : str) :
  uppercase (c :: w) <-> is_upper c = true /\ uppercase w.
Proof. unfold uppercase. simpl. apply andb_true_iff. Qed.

Lemma upper_not_mark (c : ascii) :
  is_upper c = true ->
  Ascii.eqb c "!" = false /\ Ascii.eqb c "?" = false /\
  Ascii.eqb c "_" = false /\ Ascii.eqb c "*" = false.
Proof.
  intros H. repeat split;
    (destruct (Ascii.eqb_spec c "!"); destruct (Ascii.eqb_spec c "?");
     destruct (Ascii.eqb_spec c "_"); destruct (Ascii.eqb_spec c "*");
     subst; try reflexivity; discriminate).
Qed.

Lemma exact_marks_length (g t : str) :
  length (exact_marks g t) = length g.
Proof.
  revert t. induction g as [|x g IH]; intros [|y t]; simpl; auto.
Qed.

Lemma present_marks_length (g c : str) :
  length (fst (present_marks g c)) = length g.
Proof.
  revert c. induction g as [|x g IH]; intros c; simpl; [reflexivity|].
  destruct (contains x c).
  - specialize (IH (str_replace_first c x ["_"])).
    destruct (present_marks g _). simpl in *. now rewrite IH.
  - specialize (IH c). destruct (present_marks g _). simpl in *.
    now rewrite IH.
Qed.

Lemma hint_of_length (g t : str) : length (hint_of g t) = length g.
Proof.
  unfold hint_of. now rewrite present_marks_length, exact_marks_length.
Qed.

Lemma replace_first_absent (c : str) (a x r : ascii) :
  contains a c = false -> Ascii.eqb a r = false ->
  contains a (str_replace_first c x [r]) = false.
Proof.
  unfold contains. intros H Hr.
  induction c as [|y c IH]; simpl in *; [reflexivity|].
  apply orb_false_iff in H as [H1 H2].
  destruct (Ascii.eqb x y); simpl.
  - now rewrite Hr, H2.
  - now rewrite H1, IH.
Qed.

Lemma exact_rest_no_bang (g t : str) :
  uppercase t -> contains "!" (exact_rest g t) = false.
Proof.
  revert t. unfold contains.
  induction g as [|x g IH]; intros t Ht.
  - simpl. induction t as [|y t IHt]; [reflexivity|].
    apply uppercase_cons in Ht as [Hy Ht]. simpl.
    destruct (upper_not_mark y Hy) as (E & _).
    rewrite Ascii.eqb_sym, E. now apply IHt.
  - destruct t as [|y t]; [reflexivity|].
    apply uppercase_cons in Ht as [Hy Ht]. simpl.
    rewrite (IH t Ht), orb_false_r.
    destruct (Ascii.eqb x y); [reflexivity|].
    destruct (upper_not_mark y Hy) as (E & _).
    now rewrite Ascii.eqb_sym.
Qed.

Lemma present_marks_all_bang (g c : str) :
  forallb (fun l => Ascii.eqb l "!") g = true ->
  contains "!" c = false ->
  fst (present_marks g c) = g.
Proof.
  intros Hg Hc. induction g as [|x g IH]; simpl in *; [reflexivity|].
  apply andb_true_iff in Hg as [Hx Hg]. apply Ascii.eqb_eq in Hx. subst x.
  rewrite Hc. simpl. specialize (IH Hg).
  destruct (present_marks g c). simpl in *. now rewrite IH.
Qed.

(** The hint, position by position. *)
Lemma present_marks_pointwise (g t c : str) :
  uppercase g -> length g = length t -> contains "!" c = false ->
  Forall2 hint_at (combine g t) (fst (present_marks (exact_marks g t) c)).
Proof.
  revert t c.
  induction g as [|x g IH]; intros [|y t] c Hg Hl Hc; simpl in Hl;
    try discriminate; simpl.
  - constructor.
  - apply uppercase_cons in Hg as [Hx Hg].
    injection Hl as Hl.
    destruct (upper_not_mark x Hx) as (Xb & _).
    destruct (Ascii.eqb x y) eqn:E.
    + rewrite Hc. simpl.
      specialize (IH t c Hg Hl Hc).
      destruct (present_marks (exact_marks g t) c) as [h c']. simpl in *.
      constructor; [|exact IH].
      unfold hint_at. simpl. now rewrite E.
    + destruct (contains x c) eqn:Ex.
      * specialize (IH t (str_replace_first c x ["_"]) Hg Hl
                      (replace_first_absent c "!" x "_" Hc eq_refl)).
        destruct (present_marks (exact_marks g t) _) as [h c']. simpl in *.
        constructor; [|exact IH].
        unfold hint_at. simpl. rewrite E. now left.
      * rewrite Xb. simpl.
        specialize (IH t c Hg Hl Hc).
        destruct (present_marks (exact_marks g t) c) as [h c']. simpl in *.
        constructor; [|exact IH].
        unfold hint_at. simpl. rewrite E. now right.
Qed.

Lemma hint_of_pointwise (g t : str) :
  uppercase g -> uppercase t -> length g = length t ->
  Forall2 hint_at (combine g t) (hint_of g t).
Proof.
  intros Hg Ht Hl. apply present_marks_pointwise; auto.
  now apply exact_rest_no_bang.
Qed.

(** [match_check] on words of one length returns the hint, and reports a
    full match when all its marks are exact. *)
Lemma match_check_hint (g t : str) :
  uppercase t -> length g = length t ->
  match_check g t
  = Ok (forallb (fun l => Ascii.eqb l "!") (exact_marks g t), hint_of g t).
Proof.
  intros Ht Hl. rewrite match_check_spec by lia. unfold hint_of.
  destruct (forallb _ (exact_marks g t)) eqn:E; [|reflexivity].
  rewrite present_marks_all_bang; auto using exact_rest_no_bang.
Qed.

End Letters.

(** ** The target passes the filter *)

Section Soundness.

Lemma exact_marks_marked (g t : str) :
  uppercase g -> Forall2 marked (exact_marks g t) g.
Proof.
  revert t.
  induction g as [|x g IH]; intros t Hg; [destruct t; constructor|].
  apply uppercase_cons in Hg as [Hx Hg].
  destruct t as [|y t]; simpl.
  - constructor; [split; auto|].
    specialize (IH [] Hg). now destruct g.
  - constructor; [|now apply IH].
    split; [|exact Hx]. destruct (Ascii.eqb x y); auto.
Qed.

Lemma scratch_contains (c w : str) (l : ascii) :
  Forall2 same_scratch c w -> is_upper l = true ->
  contains l c = contains l w.
Proof.
  unfold contains. intros H Hl.
  destruct (upper_not_mark l Hl) as (_ & _ & Eu & Es).
  induction H as [|a b c w [[-> ->]|[-> _]] _ IH]; simpl.
  - reflexivity.
  - now rewrite Eu, Es.
  - now rewrite IH.
Qed.

Lemma scratch_no_bang (c w : str) :
  Forall2 same_scratch c w -> contains "!" c = false.
Proof.
  unfold contains.
  induction 1 as [|a b c w [[-> ->]|[-> Hb]] _ IH]; simpl.
  - reflexivity.
  - exact IH.
  - destruct (upper_not_mark b Hb) as (E & _).
    now rewrite Ascii.eqb_sym, E.
Qed.

Lemma scratch_replace (c w : str) (l : ascii) :
  Forall2 same_scratch c w -> is_upper l = true ->
  Forall2 same_scratch
    (str_replace_first c l ["_"]) (str_replace_first w l ["*"]).
Proof.
  intros H Hl.
  destruct (upper_not_mark l Hl) as (_ & _ & Eu & Es).
  induction H as [|a b c w Hab H IH]; simpl; [constructor|].
  destruct Hab as [[-> ->]|[-> Hb]].
  - rewrite Eu, Es. constructor; [now left | exact IH].
  - destruct (Ascii.eqb l b); simpl.
    + constructor; [now left | exact H].
    + constructor; [now right | exact IH].
Qed.

(** First loop of the filter on the target and its own hint. *)
Lemma definite_on_target (g t h : str) :
  uppercase t -> length g = length t ->
  Forall2 hint_at (combine g t) h ->
  exists w1, definite_marks h g t = Ok (Next w1) /\
             Forall2 same_scratch (exact_rest g t) w1.
Proof.
  revert t h.
  induction g as [|x g IH]; intros [|y t] h Ht Hl Hh; simpl in Hl;
    try discriminate; simpl in Hh.
  - inversion Hh; subst. exists []. split; [reflexivity | constructor].
  - inversion Hh as [|? k ? h' Hk Hh']; subst. clear Hh.
    apply uppercase_cons in Ht as [Hy Ht]. injection Hl as Hl.
    destruct (IH t h' Ht Hl Hh') as (w1 & E1 & S1).
    unfold hint_at in Hk. simpl in Hk. simpl.
    destruct (Ascii.eqb x y) eqn:E.
    + subst k. simpl. rewrite E1. simpl.
      exists ("*" :: w1). split; [reflexivity|].
      constructor; [now left | exact S1].
    + destruct Hk as [-> | ->]; simpl; rewrite ?E, E1; simpl;
        (exists (y :: w1); split; [reflexivity|];
         constructor; [now right | exact S1]).
Qed.

(** Second loop of the filter on the target and its own hint: the two
    scratch copies are used up in step. *)
Lemma special_on_target (g1 g c w : str) :
  Forall2 marked g1 g -> Forall2 same_scratch c w ->
  exists w', special_marks (fst (present_marks g1 c)) g w = Ok (Next w').
Proof.
  intros Hm. revert c w.
  induction Hm as [|x l g1 g [Hx Hl] _ IH]; intros c w Hs; simpl.
  - now exists w.
  - destruct (upper_not_mark l Hl) as (Lb & _).
    destruct Hx as [-> | ->].
    + rewrite (scratch_no_bang c w Hs). simpl.
      destruct (IH c w Hs) as (w' & E).
      destruct (present_marks g1 c) as [h c']. simpl in *.
      now exists w'.
    + rewrite (scratch_contains c w l Hs Hl).
      destruct (contains l w) eqn:Ec.
      * destruct (IH _ _ (scratch_replace c w l Hs Hl)) as (w' & E).
        destruct (present_marks g1 _) as [h c']. simpl in *.
        rewrite Ec. now exists w'.
      * rewrite Lb. simpl.
        destruct (IH c w Hs) as (w' & E).
        destruct (present_marks g1 c) as [h c']. simpl in *.
        rewrite Ec. now exists w'.
Qed.

Lemma target_survives (g t : str) :
  uppercase g -> uppercase t -> length g = length t ->
  check_word_vs_guess_and_hints t g (hint_of g t) = Ok true.
Proof.
  intros Hg Ht Hl.
  rewrite check_spec by (rewrite hint_of_length; lia).
  destruct (definite_on_target g t (hint_of g t) Ht Hl
              (hint_of_pointwise g t Hg Ht Hl)) as (w1 & E1 & S1).
  rewrite E1. simpl.
  destruct (special_on_target _ g _ w1 (exact_marks_marked g t Hg) S1)
    as (w' & E2).
  fold (hint_of g t) in E2. now rewrite E2.
Qed.

End Soundness.

(** ** A guess that failed does not pass the filter *)

Section Rejection.

Lemma left_in_cons (w : str) (z : ascii) (h g : str) :
  Forall2 (left_in w) h g -> Forall2 (left_in (z :: w)) h g.
Proof.
  induction 1 as [|k x h g [H1 H2] _ IH]; constructor; [|exact IH].
  split; [exact H1|]. intros E. right. now apply H2.
Qed.

Lemma definite_on_guess (g t h : str) :
  length g = length t -> Forall2 hint_at (combine g t) h ->
  definite_marks h g g = Ok (Return false) \/
  exists w1, definite_marks h g g = Ok (Next w1) /\
             Forall2 (left_in w1) h g.
Proof.
  revert t h.
  induction g as [|x g IH]; intros [|y t] h Hl Hh; simpl in Hl;
    try discriminate; simpl in Hh.
  - inversion Hh; subst. right. exists []. split; [reflexivity|constructor].
  - inversion Hh as [|? k ? h' Hk Hh']; subst. clear Hh.
    injection Hl as Hl. unfold hint_at in Hk. simpl in Hk.
    specialize (IH t h' Hl Hh'). simpl.
    destruct (Ascii.eqb x y).
    + subst k. simpl. rewrite Ascii.eqb_refl.
      destruct IH as [-> | (w1 & -> & F)]; [now left|].
      right. exists ("*" :: w1). split; [reflexivity|].
      constructor; [|now apply left_in_cons].
      split; [now left | discriminate].
    + destruct Hk as [-> | ->]; simpl; rewrite ?Ascii.eqb_refl;
        [now left|].
      destruct IH as [-> | (w1 & -> & F)]; [now left|].
      right. exists (x :: w1). split; [reflexivity|].
      constructor; [|now apply left_in_cons].
      split; [now right | intros _; now left].
Qed.

Lemma special_rejects (h g w : str) :
  Forall2 (left_in w) h g -> Exists (fun k => k <> "!") h ->
  special_marks h g w = Ok (Return false).
Proof.
  induction 1 as [|k x h g [Hk Hx] _ IH]; intros He.
  - inversion He.
  - simpl. destruct Hk as [-> | ->]; simpl.
    + apply IH. inversion He as [? ? Hne | ]; [contradiction | assumption].
    + specialize (Hx eq_refl). apply contains_In in Hx. now rewrite Hx.
Qed.

Lemma some_mark_not_exact (g t h : str) :
  length g = length t -> Forall2 hint_at (combine g t) h -> g <> t ->
  Exists (fun k => k <> "!") h.
Proof.
  revert t h.
  induction g as [|x g IH]; intros [|y t] h Hl Hh Hne; simpl in Hl;
    try discriminate; simpl in Hh.
  - contradiction.
  - inversion Hh as [|? k ? h' Hk Hh']; subst. clear Hh.
    injection Hl as Hl. unfold hint_at in Hk. simpl in Hk.
    destruct (Ascii.eqb_spec x y) as [-> | Hxy].
    + apply Exists_cons_tl. apply (IH t h' Hl Hh'). congruence.
    + apply Exists_cons_hd. destruct Hk as [-> | ->]; discriminate.
Qed.

Lemma guess_rejected (g t : str) :
  uppercase g -> uppercase t -> length g = length t -> g <> t ->
  check_word_vs_guess_and_hints g g (hint_of g t) = Ok false.
Proof.
  intros Hg Ht Hl Hne.
  pose proof (hint_of_pointwise g t Hg Ht Hl) as Hp.
  rewrite check_spec by (rewrite hint_of_length; lia).
  destruct (definite_on_guess g t _ Hl Hp) as [-> | (w1 & -> & F)];
    [reflexivity|].
  simpl. rewrite (special_rejects _ g w1 F); [reflexivity|].
  now apply (some_mark_not_exact g t).
Qed.

End Rejection.

(** ** Accounting of repeated letters *)

Section Accounting.

Variable c : ascii.
Hypothesis c_letter : c <> "_".

Lemma count_replace (s : str) (l : ascii) :
  contains l s = true ->
  count_occ ascii_dec (str_replace_first s l ["_"]) c
  + (if Ascii.eqb l c then 1 else 0)
  = count_occ ascii_dec s c.
Proof.
  unfold contains.
  induction s as [|y s IH]; simpl; [discriminate|].
  destruct (Ascii.eqb_spec l y) as [-> | Hly]; simpl.
  - intros _. destruct (ascii_dec "_" c); [congruence|].
    destruct (Ascii.eqb_spec y c), (ascii_dec y c); congruence || lia.
  - intros H. specialize (IH H).
    destruct (ascii_dec y c); lia.
Qed.

Lemma exact_accounting (g t : str) :
  length g = length t ->
  exact_claims c g t + count_occ ascii_dec (exact_rest g t) c
  = count_occ ascii_dec t c.
Proof.
  revert t. unfold exact_claims.
  induction g as [|x g IH]; intros [|y t] Hl; simpl in Hl;
    try discriminate; [reflexivity|].
  injection Hl as Hl. specialize (IH t Hl). simpl.
  destruct (Ascii.eqb_spec x y) as [-> | Hxy]; simpl.
  - destruct (ascii_dec "_" c); [congruence|].
    destruct (Ascii.eqb_spec y c), (ascii_dec y c); simpl;
      congruence || lia.
  - rewrite andb_false_r. destruct (ascii_dec y c); lia.
Qed.

Lemma present_accounting (g1 g s : str) :
  Forall2 marked g1 g -> contains "!" s = false ->
  present_claims c g (fst (present_marks g1 s))
  + count_occ ascii_dec (snd (present_marks g1 s)) c
  = count_occ ascii_dec s c.
Proof.
  intros Hm. revert s. unfold present_claims.
  induction Hm as [|x l g1 g [Hx Hl] _ IH]; intros s Hs; simpl.
  - reflexivity.
  - destruct (upper_not_mark l Hl) as (Lb & _).
    destruct Hx as [-> | ->].
    + rewrite Hs. simpl. specialize (IH s Hs).
      destruct (present_marks g1 s) as [h s']. simpl in *.
      now rewrite andb_false_r.
    + destruct (contains l s) eqn:E.
      * specialize (IH _ (replace_first_absent s "!" l "_" Hs eq_refl)).
        pose proof (count_replace s l E) as Hr.
        destruct (present_marks g1 _) as [h s']. simpl in *.
        rewrite andb_true_r. destruct (Ascii.eqb l c); simpl; lia.
      * rewrite Lb. simpl. specialize (IH s Hs).
        destruct (present_marks g1 s) as [h s']. simpl in *.
        now rewrite andb_false_r.
Qed.

Lemma claimed_split (g t h : str) :
  length g = length t -> Forall2 hint_at (combine g t) h ->
  claimed c g h = exact_claims c g t + present_claims c g h.
Proof.
  revert t h. unfold claimed, exact_claims, present_claims.
  induction g as [|x g IH]; intros [|y t] h Hl Hh; simpl in Hl;
    try discriminate; simpl in Hh.
  - reflexivity.
  - inversion Hh as [|? k ? h' Hk Hh']; subst. clear Hh.
    injection Hl as Hl. specialize (IH t h' Hl Hh').
    unfold hint_at in Hk. simpl in Hk. simpl.
    destruct (Ascii.eqb x y).
    + subst k. simpl. rewrite andb_true_r.
      destruct (Ascii.eqb x c); simpl; lia.
    + rewrite !andb_false_r.
      destruct Hk as [-> | ->]; simpl; rewrite ?andb_false_r; simpl;
        destruct (Ascii.eqb x c); simpl; lia.
Qed.

Lemma hint_accounting (g t : str) :
  uppercase g -> uppercase t -> length g = length t ->
  claimed c g (hint_of g t) <= count_occ ascii_dec t c.
Proof.
  intros Hg Ht Hl.
  rewrite (claimed_split g t _ Hl (hint_of_pointwise g t Hg Ht Hl)).
  pose proof (exact_accounting g t Hl) as H1.
  pose proof (present_accounting _ g _ (exact_marks_marked g t Hg)
                (exact_rest_no_bang g t Ht)) as H2.
  fold (hint_of g t) in H2. lia.
Qed.

End Accounting.

Section Positions.

Lemma claimed_underscore (g h : str) :
  uppercase g -> claimed "_" g h = 0.
Proof.
  unfold claimed. revert h.
  induction g as [|x g IH]; intros [|k h] Hg; simpl; try reflexivity.
  apply uppercase_cons in Hg as [Hx Hg].
  destruct (upper_not_mark x Hx) as (_ & _ & E & _).
  rewrite E. simpl. now apply IH.
Qed.

Lemma hint_at_position (g t h : str) (i : nat) (x y : ascii) :
  Forall2 hint_at (combine g t) h ->
  nth_error g i = Some x -> nth_error t i = Some y ->
  exists k, nth_error h i = Some k /\ hint_at (x, y) k.
Proof.
  revert t h i.
  induction g as [|x' g IH]; intros [|y' t] h i Hh Hx Hy;
    try (destruct i; discriminate).
  simpl in Hh. inversion Hh as [|? k ? h' Hk Hh']; subst. clear Hh.
  destruct i as [|i]; simpl in *.
  - injection Hx as ->. injection Hy as ->. now exists k.
  - now apply (IH t).
Qed.

End Positions.

(** ** The filter returns a verdict on well-formed input *)

Section Totality.

Lemma definite_total (h g w : str) :
  forallb valid_hint h = true ->
  length h <= length g -> length h <= length w ->
  exists r, definite_marks h g w = Ok r.
Proof.
  revert g w.
  induction h as [|k h IH]; intros g w Hv Lg Lw; simpl.
  - eauto.
  - destruct g as [|x g]; simpl in Lg; [lia|].
    destruct w as [|y w]; simpl in Lw; [lia|].
    simpl in Hv. apply andb_true_iff in Hv as [Hk Hv]. rewrite Hk. simpl.
    destruct (IH g w Hv) as ([w'|b] & ->); try lia;
      destruct (Ascii.eqb k "!"), (Ascii.eqb k "?"), (Ascii.eqb x y);
      simpl; eauto.
Qed.

Lemma special_total (h g w : str) :
  length h <= length g -> exists r, special_marks h g w = Ok r.
Proof.
  revert g w.
  induction h as [|k h IH]; intros g w Lg; simpl.
  - eauto.
  - destruct g as [|x g]; simpl in Lg; [lia|].
    destruct (Ascii.eqb k "?"), (Ascii.eqb k "_"), (contains x w);
      eauto; apply IH; lia.
Qed.

Lemma check_total (w g h : str) :
  forallb valid_hint h = true ->
  length h <= length g -> length h <= length w ->
  exists b, check_word_vs_guess_and_hints w g h = Ok b.
Proof.
  intros Hv Lg Lw. rewrite check_spec by assumption.
  destruct (definite_total h g w Hv Lg Lw) as ([w'|b] & ->); simpl;
    [|eauto].
  destruct (special_total h g w' Lg) as ([w''|b] & ->); simpl; eauto.
Qed.

Lemma hint_at_valid (gt : list (ascii * ascii)) (h : str) :
  Forall2 hint_at gt h -> forallb valid_hint h = true.
Proof.
  induction 1 as [|[x y] k gt h Hk _ IH]; simpl; [reflexivity|].
  rewrite IH, andb_true_r. unfold hint_at in Hk. simpl in Hk.
  destruct (Ascii.eqb x y); [now subst|].
  now destruct Hk as [-> | ->].
Qed.

Lemma hint_of_valid (g t : str) :
  uppercase g -> uppercase t -> length g = length t ->
  forallb valid_hint (hint_of g t) = true.
Proof.
  intros Hg Ht Hl.
  apply (hint_at_valid (combine g t)). now apply hint_of_pointwise.
Qed.

Lemma exact_full_match (g t : str) :
  uppercase g -> length g = length t ->
  forallb (fun l => Ascii.eqb l "!") (exact_marks g t) = true <-> g = t.
Proof.
  revert t.
  induction g as [|x g IH]; intros [|y t] Hg Hl; simpl in Hl;
    try discriminate; simpl.
  - tauto.
  - apply uppercase_cons in Hg as [Hx Hg]. injection Hl as Hl.
    destruct (upper_not_mark x Hx) as (Xb & _).
    destruct (Ascii.eqb_spec x y) as [-> | Hxy]; simpl.
    + rewrite (IH t Hg Hl). split; congruence.
    + rewrite Xb. simpl. split; [discriminate | congruence].
Qed.

(** The list comprehension is [filter] when every check returns. *)
Lemma reduce_list_filter (ws : list str) (g h : str) :
  Forall (fun w => exists b, check_word_vs_guess_and_hints w g h = Ok b)
    ws ->
  reduce_list ws g h = Ok (List.filter (accepts g h) ws).
Proof.
  induction 1 as [|w ws [b Hb] _ IH]; simpl; [reflexivity|].
  unfold accepts at 1. rewrite Hb, IH. simpl. now destruct b.
Qed.

End Totality.

(** ** Hints with a character outside the alphabet *)

Section InvalidHints.

(** The first loop never gets past an invalid character: it raises there,
    or it has returned [False] before. *)
Lemma definite_invalid (h g w : str) :
  forallb valid_hint h = false ->
  length h <= length g -> length h <= length w ->
  definite_marks h g w = Ok (Return false) \/
  exists k, In k h /\ valid_hint k = false /\
            definite_marks h g w = Raise (ValueError_invalid_hint k).
Proof.
  revert g w.
  induction h as [|k h IH]; intros g w Hv Lg Lw; simpl in Hv;
    [discriminate|].
  destruct g as [|x g]; simpl in Lg; [lia|].
  destruct w as [|y w]; simpl in Lw; [lia|].
  simpl. destruct (valid_hint k) eqn:Ek; simpl.
  - destruct (IH g w Hv) as [E | (k' & Hin & Hk' & E)]; try lia;
      rewrite E;
      destruct (Ascii.eqb k "!"), (Ascii.eqb k "?"), (Ascii.eqb x y);
      simpl; eauto 8.
  - right. exists k. auto.
Qed.

(** The filter accepts no word on an invalid hint. *)
Lemma invalid_hint_never_accepted (w g h : str) :
  forallb valid_hint h = false ->
  length h <= length g -> length h <= length w ->
  check_word_vs_guess_and_hints w g h = Ok false \/
  exists k, In k h /\ valid_hint k = false /\
            check_word_vs_guess_and_hints w g h
            = Raise (ValueError_invalid_hint k).
Proof.
  intros Hv Lg Lw. rewrite check_spec by assumption.
  destruct (definite_invalid h g w Hv Lg Lw) as [-> | (k & Hin & Hk & ->)];
    [now left|].
  right. now exists k.
Qed.

End InvalidHints.

(** ** The comprehension on list objects *)

Section Store.

Lemma nth_error_here {A : Type} (done rest : list A) :
  nth_error (done ++ rest) (length done) = nth_error rest 0.
Proof. induction done as [|x done IH]; simpl; auto. Qed.

Lemma comprehension_spec (guess hints : str) (in_list out : nat)
    (rest done acc : list str) (st : store) (fuel : nat) :
  out <> in_list ->
  st !! in_list = Some (done ++ rest) -> st !! out = Some acc ->
  length rest < fuel ->
  comprehension fuel st in_list out (length done) guess hints =
    match reduce_list rest guess hints with
    | Ok r => Some (Ok (<[out := acc ++ r]> st))
    | Raise e => Some (Raise e)
    end.
Proof.
  intros Hne. revert done acc st fuel.
  induction rest as [|w rest IH]; intros done acc st fuel Hin Hout Hf;
    (destruct fuel as [|fuel]; [simpl in Hf; lia|]); simpl;
    unfold items; rewrite Hin; simpl; rewrite nth_error_here; simpl.
  - now rewrite app_nil_r, insert_id.
  - destruct (check_word_vs_guess_and_hints w guess hints) as [keep|e];
      simpl; [|reflexivity].
    rewrite Hout. simpl.
    change (S (length done)) with (1 + length done).
    replace (1 + length done) with (length (done ++ [w]))
      by (rewrite length_app; simpl; lia).
    destruct keep.
    + rewrite (IH (done ++ [w]) (acc ++ [w])).
      * destruct (reduce_list rest guess hints) as [r|e]; simpl;
          [|reflexivity].
        now rewrite insert_insert_eq, <- app_assoc.
      * rewrite lookup_insert_ne by exact Hne.
        now rewrite <- app_assoc.
      * apply lookup_insert_eq.
      * simpl in Hf. lia.
    + rewrite (IH (done ++ [w]) acc).
      * now destruct (reduce_list rest guess hints).
      * now rewrite <- app_assoc.
      * exact Hout.
      * simpl in Hf. lia.
Qed.

Lemma reduce_list_in_spec (guess hints : str) (in_list : nat)
    (ws : list str) (st : store) (fuel : nat) :
  st !! in_list = Some ws -> length ws < fuel ->
  reduce_list_in fuel st in_list guess hints =
    match reduce_list ws guess hints with
    | Ok r => Some (Ok (<[fresh (dom st) := r]> st, fresh (dom st)))
    | Raise e => Some (Raise e)
    end.
Proof.
  intros Hin Hf. unfold reduce_list_in.
  assert (Hfresh : st !! fresh (dom st) = None)
    by (apply not_elem_of_dom, is_fresh).
  assert (Hne : fresh (dom st) <> in_list) by congruence.
  rewrite (comprehension_spec guess hints in_list (fresh (dom st))
             ws [] [] _ fuel Hne).
  - destruct (reduce_list ws guess hints) as [r|e]; [|reflexivity].
    simpl. now rewrite insert_insert_eq.
  - now rewrite lookup_insert_ne.
  - apply lookup_insert_eq.
  - exact Hf.
Qed.

Lemma filter_sublist (f : str -> bool) (ws : list str) :
  sublist (List.filter f ws) ws.
Proof.
  induction ws as [|w ws IH]; simpl; [constructor|].
  destruct (f w); now constructor.
Qed.

Lemma sublist_In (w : str) (l1 l2 : list str) :
  sublist l1 l2 -> In w l1 -> In w l2.
Proof.
  induction 1 as [|x l1 l2 _ IH|x l1 l2 _ IH]; simpl; intuition.
Qed.

Lemma reduce_list_returns (ws r : list str) (g h : str) :
  reduce_list ws g h = Ok r -> forallb (returns g h) ws = true.
Proof.
  revert r. induction ws as [|w ws IH]; intros r; simpl; [reflexivity|].
  unfold returns at 1.
  destruct (check_word_vs_guess_and_hints w g h) as [keep|e]; simpl;
    [|discriminate].
  destruct (reduce_list ws g h) as [rest|e]; simpl; [|discriminate].
  intros _. now apply (IH rest).
Qed.

End Store.

(** ** The automatic solver *)

Section Solver.

Lemma dictionary_word (n : nat) (ws : list str) (w : str) :
  dictionary_of n ws -> In w ws -> uppercase w /\ length w = n.
Proof.
  unfold dictionary_of, word_of, uppercase. rewrite forallb_forall.
  intros H Hw. specialize (H w Hw).
  apply andb_true_iff in H as [H1 H2]. now apply Nat.eqb_eq in H2.
Qed.

Lemma dictionary_filter (n : nat) (f : str -> bool) (ws : list str) :
  dictionary_of n ws -> dictionary_of n (List.filter f ws).
Proof.
  unfold dictionary_of. rewrite !forallb_forall.
  intros H w Hw. apply List.filter_In in Hw as [Hw _]. now apply H.
Qed.

Lemma filter_length (f : str -> bool) (ws : list str) :
  length (List.filter f ws) <= length ws.
Proof.
  induction ws as [|w ws IH]; simpl; [lia|].
  destruct (f w); simpl; lia.
Qed.

Lemma filter_shrinks (f : str -> bool) (ws : list str) (w : str) :
  In w ws -> f w = false -> length (List.filter f ws) < length ws.
Proof.
  induction ws as [|x ws IH]; simpl; [contradiction|].
  intros [-> | Hw] Hf.
  - rewrite Hf. pose proof (filter_length f ws). lia.
  - specialize (IH Hw Hf). destruct (f x); simpl; lia.
Qed.

Lemma random_choice_In (r : nat) (ws : list str) :
  ws <> [] -> exists g, random_choice r ws = Ok g /\ In g ws.
Proof.
  intros Hne. unfold random_choice.
  destruct ws as [|w ws]; [contradiction|].
  set (l := w :: ws) in *.
  assert (Hlt : r mod length l < length l)
    by (apply Nat.mod_upper_bound; subst l; simpl; lia).
  apply nth_error_Some in Hlt.
  destruct (nth_error l (r mod length l)) as [g|] eqn:E; [|contradiction].
  exists g. split; [reflexivity|]. now apply nth_error_In in E.
Qed.

Variable target : str.
Variable n : nat.

(** One turn that does not win: the hint is not a full match, the reduced
    list is the filtered one, it still has the target, no longer has the
    guess, and is shorter. *)
Lemma solver_step (words : list str) (guess : str) :
  dictionary_of n words -> In target words -> In guess words ->
  guess <> target ->
  let hints := hint_of guess target in
  let words' := List.filter (accepts guess hints) words in
  match_check guess target = Ok (false, hints) /\
  reduce_list words guess hints = Ok words' /\
  In target words' /\ ~ In guess words' /\ length words' < length words.
Proof.
  intros Hd Ht Hg Hne hints words'.
  destruct (dictionary_word n words target Hd Ht) as [Ut Lt].
  destruct (dictionary_word n words guess Hd Hg) as [Ug Lg].
  assert (Hl : length guess = length target) by congruence.
  assert (Hrej : accepts guess hints guess = false)
    by (unfold accepts, hints; now rewrite guess_rejected).
  repeat split.
  - rewrite match_check_hint by assumption.
    destruct (forallb _ _) eqn:E; [|reflexivity].
    apply exact_full_match in E; auto. contradiction.
  - apply reduce_list_filter. apply List.Forall_forall. intros w Hw.
    destruct (dictionary_word n words w Hd Hw) as [_ Lw].
    apply check_total.
    + now apply hint_of_valid.
    + unfold hints. rewrite hint_of_length. lia.
    + unfold hints. rewrite hint_of_length. lia.
  - apply List.filter_In. split; [exact Ht|].
    unfold accepts, hints. now rewrite target_survives.
  - intros Hin. apply List.filter_In in Hin as [_ Hin]. congruence.
  - now apply (filter_shrinks _ words guess).
Qed.

Lemma truthy_list_In (w : str) (ws : list str) :
  In w ws -> truthy_list ws = true.
Proof. destruct ws; [contradiction | reflexivity]. Qed.

Lemma game_loop_wins (fuel : nat) (rnd : nat -> nat) (words : list str)
    (counter : nat) :
  dictionary_of n words -> In target words -> length words <= fuel ->
  exists k, k < length words /\
    game_loop fuel rnd words target counter = Some (Ok (counter + k)).
Proof.
  revert rnd words counter.
  induction fuel as [|fuel IH]; intros rnd words counter Hd Ht Hf.
  - destruct words; [contradiction | simpl in Hf; lia].
  - assert (Hne : words <> []) by (intros ->; contradiction).
    destruct (random_choice_In (rnd 0) words Hne) as (guess & Hr & Hg).
    simpl. rewrite Hr.
    destruct (dictionary_word n words target Hd Ht) as [Ut Lt].
    destruct (dictionary_word n words guess Hd Hg) as [Ug Lg].
    destruct (List.list_eq_dec ascii_dec guess target) as [-> | Hgt].
    + rewrite match_check_hint by auto.
      replace (forallb _ (exact_marks target target)) with true
        by (symmetry; now apply exact_full_match).
      exists 0. split; [|now rewrite Nat.add_0_r].
      destruct words; [contradiction | simpl; lia].
    + destruct (solver_step words guess Hd Ht Hg Hgt)
        as (Hm & Hred & Ht' & _ & Hlt).
      rewrite Hm, Hred. rewrite (truthy_list_In target _ Ht'). simpl.
      destruct (IH (fun i => rnd (S i)) _ (counter + 1)
                  (dictionary_filter n _ words Hd) Ht')
        as (k & Hk & ->); [lia|].
      exists (S k). split; [lia|]. do 2 f_equal. lia.
Qed.

End Solver.

(** ** The checking loader *)

Section Loader.

Variable comment_char : str.

Lemma kept_words_app (a b : list str) :
  kept_words comment_char (a ++ b)
  = kept_words comment_char a ++ kept_words comment_char b.
Proof. unfold kept_words. now rewrite List.filter_app, map_app. Qed.

Lemma kept_words_skip (pre post : list str) (line : str) :
  kept_line comment_char line = false ->
  kept_words comment_char (pre ++ line :: post)
  = kept_words comment_char (pre ++ post).
Proof.
  intros H. rewrite !kept_words_app. f_equal.
  unfold kept_words. simpl. now rewrite H.
Qed.

Lemma kept_words_keep (pre post : list str) (line : str) :
  kept_line comment_char line = true ->
  kept_words comment_char (pre ++ line :: post)
  = kept_words comment_char pre
    ++ upper (strip line) :: kept_words comment_char post.
Proof.
  intros H. rewrite kept_words_app. f_equal.
  unfold kept_words. simpl. now rewrite H.
Qed.

Lemma skipped_line (line : str) :
  strip line = [] \/ startswith line comment_char = true ->
  kept_line comment_char line = false.
Proof.
  unfold kept_line. intros [-> | ->]; simpl; [apply andb_false_r|].
  reflexivity.
Qed.

Lemma check_lengths_ok (ws : list str) (n : nat) :
  Forall (fun w => length w = n) ws -> check_lengths ws n = Ok tt.
Proof.
  induction 1 as [|w ws Hw _ IH]; simpl; [reflexivity|].
  now rewrite Hw, Nat.eqb_refl.
Qed.

Lemma check_lengths_first (before after : list str) (w : str) (n : nat) :
  Forall (fun w => length w = n) before -> length w <> n ->
  check_lengths (before ++ w :: after) n
  = Raise (WrongWordLengthException w (length w) n).
Proof.
  intros Hb Hw. induction Hb as [|x before Hx _ IH]; simpl.
  - apply Nat.eqb_neq in Hw. now rewrite Hw.
  - now rewrite Hx, Nat.eqb_refl.
Qed.

Lemma first_other_length (ws : list str) (n : nat) :
  ~ Forall (fun w => length w = n) ws ->
  exists before w after,
    ws = before ++ w :: after /\
    Forall (fun w => length w = n) before /\ length w <> n.
Proof.
  induction ws as [|x ws IH]; intros Hn.
  - destruct Hn. constructor.
  - destruct (Nat.eq_dec (length x) n) as [Hx | Hx].
    + destruct IH as (before & w & after & -> & Hb & Hw).
      * intros Hall. apply Hn. now constructor.
      * exists (x :: before), w, after. repeat split; auto.
    + exists [], x, ws. repeat split; auto.
Qed.

Lemma read_checked (file : list str) :
  read_file_as_words_list file true comment_char =
    match kept_words comment_char file with
    | [] => Raise ValueError_empty_input
    | w0 :: rest =>
        match check_lengths rest (length w0) with
        | Ok _ => Ok (w0 :: rest)
        | Raise e => Raise e
        end
    end.
Proof.
  unfold read_file_as_words_list.
  destruct (kept_words comment_char file) as [|w0 rest]; simpl;
    [reflexivity|].
  rewrite Nat.eqb_refl. simpl.
  now destruct (check_lengths rest (length w0)) as [[]|e].
Qed.

Lemma lstrip_spaces (ws s : str) :
  forallb is_space ws = true -> lstrip (ws ++ s) = lstrip s.
Proof.
  induction ws as [|x ws IH]; simpl; [reflexivity|].
  intros H. apply andb_true_iff in H as [-> H]. now apply IH.
Qed.

Lemma lstrip_snoc (l : str) (c : ascii) :
  is_space c = false -> exists l', lstrip (l ++ [c]) = l' ++ [c].
Proof.
  intros Hc. induction l as [|x l IH]; simpl.
  - rewrite Hc. now exists [].
  - destruct (is_space x); [exact IH|]. now exists (x :: l).
Qed.

Lemma strip_indented (ws s : str) (c : ascii) :
  forallb is_space ws = true -> is_space c = false ->
  exists s', strip (ws ++ c :: s) = c :: s'.
Proof.
  intros Hws Hc. unfold strip, rstrip.
  rewrite lstrip_spaces by exact Hws. simpl. rewrite Hc. simpl.
  destruct (lstrip_snoc (rev s) c Hc) as (l' & ->).
  rewrite rev_app_distr. simpl. now exists (rev l').
Qed.

Lemma indented_not_comment (ws s m : str) (c x : ascii) :
  comment_char = c :: m -> is_space c = false ->
  is_space x = true ->
  startswith (x :: ws ++ c :: s) comment_char = false.
Proof.
  intros -> Hc Hx. simpl.
  destruct (Ascii.eqb_spec c x) as [-> | _]; [congruence | reflexivity].
Qed.

Lemma startswith_prefix (s : str) :
  startswith (comment_char ++ s) comment_char = true.
Proof.
  induction comment_char as [|c m IH]; simpl; [reflexivity|].
  now rewrite Ascii.eqb_refl, IH.
Qed.

End Loader.

(** * The specified properties *)

(** ** Feedback engine *)

(** C5, as the code has it: [match_check("CRANE", "TRACE")] is not a full
    match and its hint is [?!!_!].  The C of the guess is in the target at
    another position, so it is marked [?], and the E at the end matches
    exactly, so it is marked [!]. *)
Theorem crane_trace_hint :
  match_check (py "CRANE") (py "TRACE") = Ok (false, py "?!!_!").
Proof. reflexivity. Qed.

(** C5, as stated, fails: the hint of [match_check("CRANE", "TRACE")] is not
    [_!!__]. *)
Lemma crane_trace_hint_differs :
  match_check (py "CRANE") (py "TRACE") <> Ok (false, py "_!!__").
Proof. vm_compute. discriminate. Qed.

(** C7, as the code has it: [match_check] does not compare the lengths.  A
    guess longer than the target fails with [IndexError], raised by
    [correct[index]] past the end of the target; a guess shorter than the
    target returns a result, with a hint as long as the guess. *)
Theorem match_check_length_mismatch (guess target : str) :
  (length target < length guess ->
   match_check guess target = Raise IndexError) /\
  (length guess < length target ->
   exists state hint,
     match_check guess target = Ok (state, hint) /\
     length hint = length guess).
Proof.
  split; intros Hl.
  - unfold match_check.
    pose proof (match_exact_short guess target [] guess 0 eq_refl Hl) as H.
    simpl in H. now rewrite H.
  - rewrite match_check_spec by lia.
    destruct (forallb _ _); eexists _, _; split; try reflexivity.
    + apply exact_marks_length.
    + now rewrite present_marks_length, exact_marks_length.
Qed.

Lemma match_check_length_mismatch_witness :
  match_check (py "AB") (py "A") = Raise IndexError /\
  exists state hint,
    match_check (py "A") (py "AB") = Ok (state, hint) /\
    length hint = length (py "A").
Proof.
  split.
  - apply (proj1 (match_check_length_mismatch (py "AB") (py "A"))).
    simpl. lia.
  - apply (proj2 (match_check_length_mismatch (py "A") (py "AB"))).
    simpl. lia.
Defined.

(** C7, as stated, fails: guess and target of different lengths, and
    [match_check] returns a result. *)
Lemma match_check_shorter_guess_returns :
  length (py "A") <> length (py "AB") /\
  match_check (py "A") (py "AB") = Ok (true, py "!").
Proof. split; [discriminate | reflexivity]. Qed.

(** C3: duplicate-letter accounting.  For upper-case words [guess] and
    [target] of one length L, [match_check] returns a hint of length L that
    has [!] at exactly the positions where guess and target agree, and for
    every letter [c] the positions marked [!] or [?] whose guess letter is
    [c] are at most as many as the occurrences of [c] in the target. *)
Theorem match_check_letter_accounting (guess target : str) :
  uppercase guess -> uppercase target -> length guess = length target ->
  exists state hint,
    match_check guess target = Ok (state, hint) /\
    length hint = length guess /\
    (forall i g t,
        nth_error guess i = Some g -> nth_error target i = Some t ->
        (nth_error hint i = Some "!" <-> g = t)) /\
    (forall c, claimed c guess hint <= count_occ ascii_dec target c).
Proof.
  intros Hg Ht Hl.
  pose proof (hint_of_pointwise guess target Hg Ht Hl) as Hp.
  eexists _, (hint_of guess target).
  split; [now apply match_check_hint|].
  split; [apply hint_of_length|].
  split.
  - intros i g t Hi Hj.
    destruct (hint_at_position guess target _ i g t Hp Hi Hj) as (k & -> & Hk).
    unfold hint_at in Hk. simpl in Hk.
    destruct (Ascii.eqb_spec g t) as [-> | Hgt].
    + subst k. tauto.
    + split; [|contradiction].
      intros E. injection E as ->. now destruct Hk.
  - intros c. destruct (ascii_dec c "_") as [-> | Hc].
    + rewrite claimed_underscore by exact Hg. lia.
    + now apply hint_accounting.
Qed.

Lemma match_check_letter_accounting_witness :
  uppercase (py "SPEED") /\ uppercase (py "ERASE") /\
  length (py "SPEED") = length (py "ERASE") /\
  exists state hint,
    match_check (py "SPEED") (py "ERASE") = Ok (state, hint) /\
    length hint = length (py "SPEED") /\
    (forall i g t,
        nth_error (py "SPEED") i = Some g ->
        nth_error (py "ERASE") i = Some t ->
        (nth_error hint i = Some "!" <-> g = t)) /\
    (forall c, claimed c (py "SPEED") hint
               <= count_occ ascii_dec (py "ERASE") c).
Proof.
  split; [reflexivity|]. split; [reflexivity|]. split; [reflexivity|].
  apply match_check_letter_accounting; reflexivity.
Defined.

(** ** Constraint filter *)

(** C1: soundness of the filter with respect to the engine.  For upper-case
    words [guess] and [target] of one length, [match_check] returns a hint,
    and the filter called on the target with this guess and hint returns
    [True]: the target survives its own feedback. *)
Theorem filter_sound_wrt_engine (guess target : str) :
  uppercase guess -> uppercase target -> length guess = length target ->
  exists state hint,
    match_check guess target = Ok (state, hint) /\
    check_word_vs_guess_and_hints target guess hint = Ok true.
Proof.
  intros Hg Ht Hl. eexists _, _. split.
  - now apply match_check_hint.
  - now apply target_survives.
Qed.

Lemma filter_sound_wrt_engine_witness :
  uppercase (py "SPEED") /\ uppercase (py "ERASE") /\
  length (py "SPEED") = length (py "ERASE") /\
  exists state hint,
    match_check (py "SPEED") (py "ERASE") = Ok (state, hint) /\
    check_word_vs_guess_and_hints (py "ERASE") (py "SPEED") hint = Ok true.
Proof.
  split; [reflexivity|]. split; [reflexivity|]. split; [reflexivity|].
  apply filter_sound_wrt_engine; reflexivity.
Defined.

(** C9: a failed guess never survives its own feedback.  For distinct
    upper-case words [g] and [t] of one length, [match_check g t] is not a
    full match, the filter called on [g] itself with the guess [g] and the
    returned hint returns [False], and so [reduce_list] removes [g] from
    every list of candidate words: [g] is in none of the lists the solver
    draws its later guesses from, which are sublists of the reduced one. *)
Theorem failed_guess_is_filtered_out (g t : str) :
  uppercase g -> uppercase t -> length g = length t -> g <> t ->
  exists hint,
    match_check g t = Ok (false, hint) /\
    check_word_vs_guess_and_hints g g hint = Ok false /\
    forall words,
      dictionary_of (length g) words ->
      exists words',
        reduce_list words g hint = Ok words' /\
        forall later, sublist later words' -> ~ In g later.
Proof.
  intros Hg Ht Hl Hne. exists (hint_of g t).
  split; [|split].
  - rewrite match_check_hint by assumption.
    destruct (forallb _ _) eqn:E; [|reflexivity].
    apply exact_full_match in E; auto. contradiction.
  - now apply guess_rejected.
  - intros words Hd. eexists. split.
    + apply reduce_list_filter. apply List.Forall_forall. intros w Hw.
      destruct (dictionary_word _ words w Hd Hw) as [_ Lw].
      apply check_total; rewrite ?hint_of_length; try lia.
      now apply hint_of_valid.
    + intros later Hs Hin. apply (sublist_In g _ _ Hs) in Hin.
      apply List.filter_In in Hin as [_ Hin].
      unfold accepts in Hin. now rewrite guess_rejected in Hin.
Qed.

Lemma failed_guess_is_filtered_out_witness :
  uppercase (py "SPEED") /\ uppercase (py "ERASE") /\
  length (py "SPEED") = length (py "ERASE") /\ py "SPEED" <> py "ERASE" /\
  exists hint,
    match_check (py "SPEED") (py "ERASE") = Ok (false, hint) /\
    check_word_vs_guess_and_hints (py "SPEED") (py "SPEED") hint = Ok false /\
    forall words,
      dictionary_of (length (py "SPEED")) words ->
      exists words',
        reduce_list words (py "SPEED") hint = Ok words' /\
        forall later, sublist later words' -> ~ In (py "SPEED") later.
Proof.
  split; [reflexivity|]. split; [reflexivity|]. split; [reflexivity|].
  split; [discriminate|].
  apply failed_guess_is_filtered_out; try reflexivity. discriminate.
Defined.

(** C6, on the input where the code departs from it: the hint [!x] has the
    character [x] outside the alphabet, word, guess and hint have one
    length, and the filter returns [False] without raising, because the
    mismatch at the first position leaves the function before the second
    character of the hint is looked at. *)
Theorem invalid_hint_not_reported :
  length (py "AB") = length (py "CB") /\
  length (py "CB") = length (py "!x") /\
  valid_hint "x" = false /\
  check_word_vs_guess_and_hints (py "AB") (py "CB") (py "!x") = Ok false.
Proof. repeat split. Qed.

Example invalid_hint_reported_when_reached :
  check_word_vs_guess_and_hints (py "AB") (py "AB") (py "!x")
  = Raise (ValueError_invalid_hint "x").
Proof. reflexivity. Qed.

(** ** Candidate reducer *)

(** C4: [reduce_list] returns exactly when the filter returns a verdict on
    every word of the list, and it then returns exactly the words on which
    the filter returns [True], in their order: a subsequence of the input
    with nothing added.  On list objects, the result is a new list and the
    input list, like every other list of the store, is left as it was. *)
Theorem reduce_list_subsequence (in_list : list str) (guess hints : str) :
  let out := List.filter (accepts guess hints) in_list in
  (forall r, reduce_list in_list guess hints = Ok r ->
             forallb (returns guess hints) in_list = true) /\
  (forallb (returns guess hints) in_list = true ->
   reduce_list in_list guess hints = Ok out /\
   sublist out in_list /\
   (forall w, In w out <->
              In w in_list /\
              check_word_vs_guess_and_hints w guess hints = Ok true) /\
   forall (st : store) (l fuel : nat),
     st !! l = Some in_list -> length in_list < fuel ->
     exists l' st',
       reduce_list_in fuel st l guess hints = Some (Ok (st', l')) /\
       st !! l' = None /\
       st' !! l' = Some out /\
       st' !! l = Some in_list /\
       forall k, k <> l' -> st' !! k = st !! k).
Proof.
  intros out. split; [intros r; apply reduce_list_returns|].
  intros Hr.
  assert (Hred : reduce_list in_list guess hints = Ok out).
  { apply reduce_list_filter. apply List.Forall_forall. intros w Hw.
    rewrite forallb_forall in Hr. specialize (Hr w Hw).
    unfold returns in Hr.
    destruct (check_word_vs_guess_and_hints w guess hints) as [b|e];
      [now exists b | discriminate]. }
  split; [exact Hred|]. split; [apply filter_sublist|]. split.
  - intros w. unfold out. rewrite List.filter_In. unfold accepts.
    destruct (check_word_vs_guess_and_hints w guess hints) as [[|]|e];
      intuition congruence.
  - intros st l fuel Hl Hf.
    assert (Hfresh : st !! fresh (dom st) = None)
      by (apply not_elem_of_dom, is_fresh).
    exists (fresh (dom st)), (<[fresh (dom st) := out]> st).
    rewrite (reduce_list_in_spec guess hints l in_list st fuel Hl Hf), Hred.
    split; [reflexivity|]. split; [exact Hfresh|].
    split; [apply lookup_insert_eq|].
    split.
    + rewrite lookup_insert_ne by congruence. exact Hl.
    + intros k Hk. now rewrite lookup_insert_ne by congruence.
Qed.

Lemma reduce_list_subsequence_witness :
  let in_list := [py "TOUGH"; py "GHOST"; py "THOSE"; py "OUGHT"] in
  let guess := py "GHOST" in
  let hints := py "???_?" in
  forallb (returns guess hints) in_list = true /\
  reduce_list in_list guess hints = Ok [py "TOUGH"] /\
  sublist [py "TOUGH"] in_list.
Proof.
  intros in_list guess hints. split; [reflexivity|].
  destruct (proj2 (reduce_list_subsequence in_list guess hints) eq_refl)
    as (H1 & H2 & _).
  split; [exact H1 | exact H2].
Defined.

(** ** Automatic solver *)

(** C2: progress and termination of the automatic solver.  For a non-empty
    dictionary of upper-case words of one length and a target taken from it,
    whatever numbers the random generator delivers, the loop of
    [game_routine] returns the number of guesses made, between 1 and the
    size of the dictionary, and raises nothing, so never the exception for
    an empty list of candidates.  At every turn that does not win, the
    reduced list still has the target and is strictly shorter. *)
Theorem auto_solver_terminates (dictionary : list str) (target : str)
    (n : nat) :
  dictionary <> [] -> dictionary_of n dictionary -> In target dictionary ->
  (forall (rnd : nat -> nat) (fuel : nat),
      length dictionary <= fuel ->
      exists guesses,
        1 <= guesses <= length dictionary /\
        game_routine fuel rnd dictionary target = Some (Ok guesses)) /\
  (forall words guess,
      dictionary_of n words -> In target words -> In guess words ->
      guess <> target ->
      exists hints words',
        match_check guess target = Ok (false, hints) /\
        reduce_list words guess hints = Ok words' /\
        In target words' /\ length words' < length words).
Proof.
  intros _ Hd Ht. split.
  - intros rnd fuel Hf. unfold game_routine.
    destruct (game_loop_wins target n fuel rnd dictionary 1 Hd Ht Hf)
      as (k & Hk & ->).
    exists (1 + k). split; [lia | reflexivity].
  - intros words guess Hw Htw Hg Hne.
    destruct (solver_step target n words guess Hw Htw Hg Hne)
      as (H1 & H2 & H3 & _ & H5).
    eauto 10.
Qed.

Lemma auto_solver_terminates_witness :
  let dictionary := [py "TOUGH"; py "GHOST"; py "THOSE"; py "OUGHT"] in
  dictionary <> [] /\ dictionary_of 5 dictionary /\
  In (py "THOSE") dictionary /\
  forall (rnd : nat -> nat),
    exists guesses,
      1 <= guesses <= 4 /\
      game_routine 4 rnd dictionary (py "THOSE") = Some (Ok guesses).
Proof.
  intros dictionary.
  assert (Hne : dictionary <> []) by discriminate.
  assert (Hd : dictionary_of 5 dictionary) by reflexivity.
  assert (Ht : In (py "THOSE") dictionary) by (simpl; auto).
  split; [exact Hne|]. split; [exact Hd|]. split; [exact Ht|].
  intros rnd.
  apply (proj1 (auto_solver_terminates dictionary (py "THOSE") 5 Hne Hd Ht)).
  simpl. lia.
Defined.

Example auto_solver_run :
  game_routine 4 (fun i => i)
    [py "TOUGH"; py "GHOST"; py "THOSE"; py "OUGHT"] (py "THOSE")
  = Some (Ok 2).
Proof. reflexivity. Qed.

(** ** Loading the dictionary *)

(** C8: the contract of the checking loader.  The lines that are blank or
    start with the comment marker are skipped: the words and the result
    are those of the file without such a line.  When no word is left the
    loader raises the [ValueError] for an empty input.  When the words left
    do not all have one length, it raises [WrongWordLengthException] naming
    a word, its length, and the expected length, which is the length of the
    first word.  In particular, when one word has another length than the
    expected one and the words before it have the expected length, the
    exception names that word.  When all words have one length the loader
    returns them. *)
Theorem lenient_loading_contract (comment_char : str) (file : list str) :
  let words := kept_words comment_char file in
  let read := read_file_as_words_list file true comment_char in
  (forall pre skipped post,
      file = pre ++ skipped :: post ->
      strip skipped = [] \/ startswith skipped comment_char = true ->
      words = kept_words comment_char (pre ++ post) /\
      read = read_file_as_words_list (pre ++ post) true comment_char) /\
  (words = [] -> read = Raise ValueError_empty_input) /\
  ((~ exists n, Forall (fun w => length w = n) words) ->
   exists w0 w,
     nth_error words 0 = Some w0 /\ In w words /\
     length w <> length w0 /\
     read = Raise (WrongWordLengthException w (length w) (length w0))) /\
  (forall w0 before w after,
      words = w0 :: before ++ w :: after ->
      Forall (fun x => length x = length w0) before ->
      length w <> length w0 ->
      read = Raise (WrongWordLengthException w (length w) (length w0))) /\
  (forall n,
      words <> [] -> Forall (fun w => length w = n) words ->
      read = Ok words).
Proof.
  intros words read. unfold read. rewrite read_checked. fold words.
  split; [|split; [|split; [|split]]].
  - intros pre skipped post -> Hs.
    apply (skipped_line comment_char) in Hs.
    assert (E : words = kept_words comment_char (pre ++ post))
      by now apply kept_words_skip.
    split; [exact E|]. now rewrite read_checked, <- E.
  - now intros ->.
  - intros Hn. destruct words as [|w0 rest].
    + destruct Hn. exists 0. constructor.
    + destruct (first_other_length rest (length w0))
        as (before & w & after & -> & Hb & Hw).
      * intros Hall. apply Hn. exists (length w0). now constructor.
      * exists w0, w. split; [reflexivity|].
        split; [right; apply in_elt|]. split; [exact Hw|].
        now rewrite check_lengths_first.
  - intros w0 before w after -> Hb Hw.
    now rewrite check_lengths_first.
  - intros n Hne Hall. destruct words as [|w0 rest]; [contradiction|].
    inversion Hall as [|? ? H0 Hrest]; subst.
    now rewrite check_lengths_ok.
Qed.

Lemma lenient_loading_contract_witness :
  let file :=
    [line "# fruit"; line ""; line "apple"; line "grape"; line "kiwi";
     line "lemon"] in
  kept_words (py "#") file
  = py "APPLE" :: [py "GRAPE"] ++ py "KIWI" :: [py "LEMON"] /\
  Forall (fun x => length x = length (py "APPLE")) [py "GRAPE"] /\
  length (py "KIWI") <> length (py "APPLE") /\
  read_file_as_words_list file true (py "#")
  = Raise (WrongWordLengthException (py "KIWI") 4 5).
Proof.
  intros file.
  assert (Hw : kept_words (py "#") file
               = py "APPLE" :: [py "GRAPE"] ++ py "KIWI" :: [py "LEMON"])
    by reflexivity.
  assert (Hb : Forall (fun x => length x = length (py "APPLE")) [py "GRAPE"])
    by (repeat constructor).
  assert (Hl : length (py "KIWI") <> length (py "APPLE"))
    by discriminate.
  split; [exact Hw|]. split; [exact Hb|]. split; [exact Hl|].
  destruct (lenient_loading_contract (py "#") file) as (_ & _ & _ & H & _).
  exact (H _ _ _ _ Hw Hb Hl).
Defined.

(** C10: the comment marker is looked for in the raw line.  A line whose
    marker comes after leading white space does not start with the marker,
    so it is not skipped: it is stripped, put in upper case and kept as a
    word, which starts with the marker.  The same line without the leading
    white space is skipped.  The word kept can then fail the check of the
    lengths, as for the marker [#] and the lines [AB] and [ #CD]. *)
Theorem comment_detection_precedes_stripping
    (comment_char ws rest m : str) (c : ascii) (pre post : list str) :
  comment_char = c :: m -> is_space c = false ->
  ws <> [] -> forallb is_space ws = true ->
  let indented := ws ++ comment_char ++ rest in
  startswith indented comment_char = false /\
  kept_line comment_char indented = true /\
  (exists s, strip indented = c :: s) /\
  kept_words comment_char (pre ++ indented :: post)
  = kept_words comment_char pre
    ++ upper (strip indented) :: kept_words comment_char post /\
  kept_words comment_char (pre ++ (comment_char ++ rest) :: post)
  = kept_words comment_char (pre ++ post) /\
  read_file_as_words_list [line "AB"; line " #CD"] true (py "#")
  = Raise (WrongWordLengthException (py "#CD") 3 2).
Proof.
  intros Hc Hsp Hne Hws indented.
  assert (Hstart : startswith indented comment_char = false).
  { unfold indented. destruct ws as [|x ws']; [contradiction|].
    simpl in Hws. apply andb_true_iff in Hws as [Hx _].
    rewrite Hc at 1. simpl app.
    now apply (indented_not_comment comment_char ws' _ m c x). }
  assert (Hstrip : exists s, strip indented = c :: s).
  { unfold indented. rewrite Hc. simpl app. now apply strip_indented. }
  assert (Hkept : kept_line comment_char indented = true).
  { unfold kept_line. rewrite Hstart. destruct Hstrip as (s & ->).
    reflexivity. }
  split; [exact Hstart|]. split; [exact Hkept|]. split; [exact Hstrip|].
  split; [now apply kept_words_keep|].
  split; [|reflexivity].
  apply kept_words_skip. apply skipped_line. right.
  apply startswith_prefix.
Qed.

Lemma comment_detection_precedes_stripping_witness :
  py "#" = "#"%char :: [] /\ is_space "#" = false /\
  py "  " <> [] /\ forallb is_space (py "  ") = true /\
  kept_words (py "#") [line "ab"; py "  " ++ py "#" ++ line " note"]
  = [py "AB"; py "# NOTE"] /\
  kept_words (py "#") [line "ab"; py "#" ++ line " note"] = [py "AB"].
Proof.
  assert (H1 : py "#" = "#"%char :: []) by reflexivity.
  assert (H2 : is_space "#" = false) by reflexivity.
  assert (H3 : py "  " <> []) by discriminate.
  assert (H4 : forallb is_space (py "  ") = true) by reflexivity.
  split; [exact H1|]. split; [exact H2|]. split; [exact H3|].
  split; [exact H4|].
  destruct (comment_detection_precedes_stripping
              (py "#") (py "  ") (line " note") [] "#" [line "ab"] []
              H1 H2 H3 H4) as (_ & _ & _ & Hk & Hs & _).
  split; [exact Hk | exact Hs].
Defined.

(** * Further properties of the code *)

(** ** More on the feedback engine *)

Section Engine.

Lemma exact_marks_same (w : str) :
  exact_marks w w = repeat "!" (length w).
Proof.
  induction w as [|x w IH]; simpl; [reflexivity|].
  now rewrite Ascii.eqb_refl, IH.
Qed.

Lemma all_exact_repeat (n : nat) :
  forallb (fun l => Ascii.eqb l "!") (repeat "!" n) = true.
Proof. induction n as [|n IH]; simpl; auto. Qed.

Lemma all_exact_is_repeat (h : str) :
  forallb (fun l => Ascii.eqb l "!") h = true -> h = repeat "!" (length h).
Proof.
  induction h as [|k h IH]; simpl; [reflexivity|].
  intros H. apply andb_true_iff in H as [Hk H].
  apply Ascii.eqb_eq in Hk. subst k. now rewrite <- IH.
Qed.

Lemma pointwise_all_exact (g t : str) (n : nat) :
  length g = length t ->
  Forall2 hint_at (combine g t) (repeat "!" n) -> g = t.
Proof.
  revert t n.
  induction g as [|x g IH]; intros [|y t] n Hl Hh; simpl in Hl;
    try discriminate; [reflexivity|].
  destruct n as [|n]; simpl in Hh; inversion Hh as [|? ? ? ? Hk Hh']; subst.
  injection Hl as Hl. unfold hint_at in Hk. simpl in Hk.
  destruct (Ascii.eqb_spec x y) as [-> | _].
  - f_equal. now apply (IH t n).
  - destruct Hk; discriminate.
Qed.

End Engine.

(** X1: a word compared with itself is a full match, whatever its
    characters: the result is [True] with one [!] per character. *)
Theorem match_check_same_word (w : str) :
  match_check w w = Ok (true, repeat "!" (length w)).
Proof.
  rewrite match_check_spec by lia.
  now rewrite exact_marks_same, all_exact_repeat.
Qed.

(** X2: for upper-case words of one length, the full-match flag returned by
    [match_check] is [True] exactly when the guess is the target, and the
    hint consists of [!] only exactly in that case. *)
Theorem match_check_full_match_iff (guess target : str) :
  uppercase guess -> uppercase target -> length guess = length target ->
  exists state hint,
    match_check guess target = Ok (state, hint) /\
    (state = true <-> guess = target) /\
    (hint = repeat "!" (length guess) <-> guess = target).
Proof.
  intros Hg Ht Hl. eexists _, (hint_of guess target).
  split; [now apply match_check_hint|]. split.
  - now apply exact_full_match.
  - split.
    + intros E. apply (pointwise_all_exact _ _ (length guess) Hl).
      rewrite <- E. now apply hint_of_pointwise.
    + intros ->. pose proof (match_check_hint target target Ht eq_refl) as H.
      rewrite match_check_same_word in H. congruence.
Qed.

Lemma match_check_full_match_iff_witness :
  uppercase (py "SPEED") /\ uppercase (py "ERASE") /\
  length (py "SPEED") = length (py "ERASE") /\
  exists state hint,
    match_check (py "SPEED") (py "ERASE") = Ok (state, hint) /\
    (state = true <-> py "SPEED" = py "ERASE") /\
    (hint = repeat "!"%char (length (py "SPEED")) <-> py "SPEED" = py "ERASE").
Proof.
  split; [reflexivity|]. split; [reflexivity|]. split; [reflexivity|].
  apply match_check_full_match_iff; reflexivity.
Defined.

(** X3: the hint [match_check] returns for upper-case words of one length
    is made of [!], [?] and [_] only, and the filter called with this guess
    and hint returns a verdict on every word of that length: it raises
    neither the error for an invalid hint nor an [IndexError]. *)
Theorem match_check_hint_fits_filter (guess target : str) :
  uppercase guess -> uppercase target -> length guess = length target ->
  exists state hint,
    match_check guess target = Ok (state, hint) /\
    forallb valid_hint hint = true /\
    forall w, length w = length guess ->
              exists b, check_word_vs_guess_and_hints w guess hint = Ok b.
Proof.
  intros Hg Ht Hl. eexists _, (hint_of guess target).
  split; [now apply match_check_hint|].
  split; [now apply hint_of_valid|].
  intros w Hw. apply check_total; rewrite ?hint_of_length; try lia.
  now apply hint_of_valid.
Qed.

Lemma match_check_hint_fits_filter_witness :
  uppercase (py "SPEED") /\ uppercase (py "ERASE") /\
  length (py "SPEED") = length (py "ERASE") /\
  exists state hint,
    match_check (py "SPEED") (py "ERASE") = Ok (state, hint) /\
    forallb valid_hint hint = true /\
    forall w, length w = length (py "SPEED") ->
              exists b,
                check_word_vs_guess_and_hints w (py "SPEED") hint = Ok b.
Proof.
  split; [reflexivity|]. split; [reflexivity|]. split; [reflexivity|].
  apply match_check_hint_fits_filter; reflexivity.
Defined.

(** ** The meaning of the marks [?] and [_] *)

Section Marks.

Lemma contains_count (c : ascii) (s : str) :
  contains c s = false -> count_occ ascii_dec s c = 0.
Proof.
  intros H. apply count_occ_not_In. intros Hin.
  apply contains_In in Hin. congruence.
Qed.

Lemma uppercase_nth (w : str) (i : nat) (c : ascii) :
  uppercase w -> nth_error w i = Some c -> is_upper c = true.
Proof.
  unfold uppercase. rewrite forallb_forall. intros H Hi.
  apply H. now apply nth_error_In in Hi.
Qed.

Lemma upper_not_underscore (c : ascii) : is_upper c = true -> c <> "_".
Proof. now intros H ->. Qed.

(** A letter marked [_] by the second loop is no longer in the scratch copy
    of the target when the loop ends. *)
Lemma present_grey_exhausted (g1 g s : str) (i : nat) (c : ascii) :
  Forall2 marked g1 g -> contains "!" s = false ->
  nth_error g i = Some c ->
  nth_error (fst (present_marks g1 s)) i = Some "_" ->
  count_occ ascii_dec (snd (present_marks g1 s)) c = 0.
Proof.
  intros Hm. revert s i.
  induction Hm as [|x l g1 g [Hx Hl] Hm IH]; intros s i Hs Hi Hk;
    [destruct i; discriminate|].
  destruct (upper_not_mark l Hl) as (Lb & _).
  simpl in Hk |- *. destruct i as [|i]; simpl in Hi.
  - injection Hi as ->. destruct Hx as [-> | ->].
    + rewrite Hs in Hk. simpl in Hk.
      destruct (present_marks g1 s). discriminate.
    + destruct (contains c s) eqn:E.
      * destruct (present_marks g1 _). discriminate.
      * rewrite Lb. simpl.
        pose proof (present_accounting c (upper_not_underscore c Hl)
                      g1 g s Hm Hs) as Ha.
        pose proof (contains_count c s E) as H0.
        destruct (present_marks g1 s) as [h s']. simpl in *. lia.
  - destruct Hx as [-> | ->].
    + rewrite Hs in Hk |- *. simpl in Hk |- *.
      specialize (IH s i Hs Hi).
      destruct (present_marks g1 s) as [h s']. simpl in *. now apply IH.
    + destruct (contains l s) eqn:E.
      * specialize (IH _ i (replace_first_absent s "!" l "_" Hs eq_refl) Hi).
        destruct (present_marks g1 _) as [h s']. simpl in *. now apply IH.
      * rewrite Lb in Hk |- *. simpl in Hk |- *.
        specialize (IH s i Hs Hi).
        destruct (present_marks g1 s) as [h s']. simpl in *. now apply IH.
Qed.

Lemma present_claims_positive (c : ascii) (g h : str) (i : nat) :
  nth_error g i = Some c -> nth_error h i = Some "?" ->
  1 <= present_claims c g h.
Proof.
  unfold present_claims. revert h i.
  induction g as [|x g IH]; intros [|k h] [|i] Hg Hh; try discriminate;
    simpl in *.
  - injection Hg as ->. injection Hh as ->.
    rewrite Ascii.eqb_refl. simpl. lia.
  - specialize (IH h i Hg Hh).
    destruct (Ascii.eqb x c && Ascii.eqb k "?"); simpl; lia.
Qed.

End Marks.

(** X4: a mark [_] means that the letter is used up.  For upper-case words
    of one length, when [match_check] marks a position of the guess with
    [_], the positions marked [!] or [?] that have the same guess letter are
    exactly as many as the occurrences of this letter in the target. *)
Theorem underscore_means_exhausted (guess target : str) :
  uppercase guess -> uppercase target -> length guess = length target ->
  exists state hint,
    match_check guess target = Ok (state, hint) /\
    forall i c,
      nth_error guess i = Some c -> nth_error hint i = Some "_" ->
      claimed c guess hint = count_occ ascii_dec target c.
Proof.
  intros Hg Ht Hl. eexists _, (hint_of guess target).
  split; [now apply match_check_hint|].
  intros i c Hi Hk.
  assert (Hc : c <> "_")
    by (apply upper_not_underscore; now apply (uppercase_nth guess i)).
  rewrite (claimed_split c guess target _ Hl
             (hint_of_pointwise guess target Hg Ht Hl)).
  pose proof (exact_accounting c Hc guess target Hl) as H1.
  pose proof (present_accounting c Hc _ guess _
                (exact_marks_marked guess target Hg)
                (exact_rest_no_bang guess target Ht)) as H2.
  pose proof (present_grey_exhausted _ guess _ i c
                (exact_marks_marked guess target Hg)
                (exact_rest_no_bang guess target Ht) Hi Hk) as H3.
  fold (hint_of guess target) in H2. lia.
Qed.

Lemma underscore_means_exhausted_witness :
  uppercase (py "SPEED") /\ uppercase (py "ERASE") /\
  length (py "SPEED") = length (py "ERASE") /\
  exists state hint,
    match_check (py "SPEED") (py "ERASE") = Ok (state, hint) /\
    forall i c,
      nth_error (py "SPEED") i = Some c -> nth_error hint i = Some "_"%char ->
      claimed c (py "SPEED") hint = count_occ ascii_dec (py "ERASE") c.
Proof.
  split; [reflexivity|]. split; [reflexivity|]. split; [reflexivity|].
  apply underscore_means_exhausted; reflexivity.
Defined.

(** X5: a mark [?] means that the letter is elsewhere in the target.  For
    upper-case words of one length, when [match_check] marks a position of
    the guess with [?], the guess letter there occurs in the target, and not
    at this position. *)
Theorem question_mark_means_elsewhere (guess target : str) :
  uppercase guess -> uppercase target -> length guess = length target ->
  exists state hint,
    match_check guess target = Ok (state, hint) /\
    forall i c,
      nth_error guess i = Some c -> nth_error hint i = Some "?" ->
      In c target /\ nth_error target i <> Some c.
Proof.
  intros Hg Ht Hl. eexists _, (hint_of guess target).
  split; [now apply match_check_hint|].
  intros i c Hi Hk.
  pose proof (hint_of_pointwise guess target Hg Ht Hl) as Hp.
  assert (Hc : c <> "_")
    by (apply upper_not_underscore; now apply (uppercase_nth guess i)).
  split.
  - pose proof (exact_accounting c Hc guess target Hl) as H1.
    pose proof (present_accounting c Hc _ guess _
                  (exact_marks_marked guess target Hg)
                  (exact_rest_no_bang guess target Ht)) as H2.
    fold (hint_of guess target) in H2.
    pose proof (present_claims_positive c guess _ i Hi Hk) as H3.
    apply (count_occ_In ascii_dec). lia.
  - intros Hy.
    destruct (hint_at_position guess target _ i c c Hp Hi Hy)
      as (k & Hk' & Hat).
    unfold hint_at in Hat. simpl in Hat. rewrite Ascii.eqb_refl in Hat.
    congruence.
Qed.

Lemma question_mark_means_elsewhere_witness :
  uppercase (py "SPEED") /\ uppercase (py "ERASE") /\
  length (py "SPEED") = length (py "ERASE") /\
  exists state hint,
    match_check (py "SPEED") (py "ERASE") = Ok (state, hint) /\
    forall i c,
      nth_error (py "SPEED") i = Some c -> nth_error hint i = Some "?"%char ->
      In c (py "ERASE") /\ nth_error (py "ERASE") i <> Some c.
Proof.
  split; [reflexivity|]. split; [reflexivity|]. split; [reflexivity|].
  apply question_mark_means_elsewhere; reflexivity.
Defined.

(** ** [replace_char] at and beyond the end *)

(** X6: [replace_char] with a position inside the string and a replacement
    of one character keeps the length, puts the character at the position
    and leaves the other positions as they were; with a position at or
    beyond the end it raises nothing and appends the replacement. *)
Theorem replace_char_bounds (r : ascii) (s rep : str) (i : nat) :
  (i < length s ->
   length (replace_char [r] s i) = length s /\
   nth_error (replace_char [r] s i) i = Some r /\
   forall j, j <> i -> nth_error (replace_char [r] s i) j = nth_error s j) /\
  (length s <= i -> replace_char rep s i = s ++ rep).
Proof.
  split.
  - intros Hi. apply nth_error_Some in Hi.
    destruct (nth_error s i) as [x|] eqn:E; [clear Hi | contradiction].
    apply nth_error_split in E as (pre & post & -> & Hpre).
    rewrite replace_char_here by auto. subst i.
    split; [rewrite !length_app; simpl; lia|].
    split.
    + rewrite nth_error_app2 by lia. now rewrite Nat.sub_diag.
    + intros j Hj. destruct (Nat.lt_ge_cases j (length pre)) as [Hlt | Hge].
      * now rewrite !nth_error_app1 by lia.
      * rewrite (nth_error_app2 pre ([r] ++ post)) by lia.
        rewrite (nth_error_app2 pre (x :: post)) by lia.
        destruct (j - length pre) as [|k] eqn:Ek; [lia | reflexivity].
  - intros Hi. unfold replace_char.
    rewrite firstn_all2 by exact Hi.
    now rewrite skipn_all2, app_nil_r by lia.
Qed.

Lemma replace_char_bounds_witness :
  replace_char (py "!") (py "AB") 1 = py "A!" /\
  replace_char (py "!") (py "AB") 5 = py "AB!".
Proof.
  split.
  - reflexivity.
  - apply (proj2 (replace_char_bounds "!" (py "AB") (py "!") 5)).
    simpl. lia.
Defined.

(** ** What the filter accepts *)

Section Acceptance.

Lemma map_next_inv (f : str -> str) (r : result (flow str)) (w1 : str) :
  map_next f r = Ok (Next w1) -> exists w0, r = Ok (Next w0) /\ w1 = f w0.
Proof.
  destruct r as [[w0|b]|e]; simpl; try discriminate.
  intros E. injection E as <-. now exists w0.
Qed.

Lemma definite_next_at (h g w w1 : str) :
  definite_marks h g w = Ok (Next w1) ->
  forallb valid_hint h = true /\
  (forall c, c <> "*" -> In c w1 -> In c w) /\
  forall i k x y,
    nth_error h i = Some k -> nth_error g i = Some x ->
    nth_error w i = Some y ->
    (k = "!" -> x = y) /\ (k = "?" -> x <> y).
Proof.
  revert g w w1.
  induction h as [|k0 h IH]; intros g w w1 E; simpl in E.
  - injection E as <-. split; [reflexivity|]. split; [auto|].
    intros [|i]; discriminate.
  - destruct g as [|x0 g]; [discriminate|].
    destruct w as [|y0 w]; [discriminate|].
    destruct (valid_hint k0) eqn:Ev; simpl in E; [|discriminate].
    assert (Hstep : exists z w0,
               definite_marks h g w = Ok (Next w0) /\ w1 = z :: w0 /\
               (z = "*" \/ z = y0) /\
               (k0 = "!" -> x0 = y0) /\ (k0 = "?" -> x0 <> y0)).
    { destruct (Ascii.eqb_spec k0 "!") as [-> | Hb].
      - destruct (Ascii.eqb_spec x0 y0) as [-> | Hxy]; [|discriminate].
        apply map_next_inv in E as (w0 & E & ->).
        exists "*", w0. repeat split; auto; discriminate.
      - destruct (Ascii.eqb_spec k0 "?") as [-> | Hq].
        + destruct (Ascii.eqb_spec x0 y0) as [-> | Hxy]; [discriminate|].
          apply map_next_inv in E as (w0 & E & ->).
          exists y0, w0. repeat split; auto; discriminate.
        + apply map_next_inv in E as (w0 & E & ->).
          exists y0, w0. repeat split; auto; contradiction. }
    destruct Hstep as (z & w0 & E0 & -> & Hz & Hb & Hq).
    destruct (IH g w w0 E0) as (Hv & Hin & Hat).
    split; [simpl; now rewrite Ev, Hv|]. split.
    + intros c Hc [<- | Hc0].
      * destruct Hz as [-> | ->]; [contradiction | now left].
      * right. now apply Hin.
    + intros [|i] k x y Hk Hx Hy; simpl in *.
      * injection Hk as <-. injection Hx as <-. injection Hy as <-. auto.
      * now apply (Hat i).
Qed.

Lemma replace_star_In (s : str) (l c : ascii) :
  c <> "*" -> In c (str_replace_first s l ["*"]) -> In c s.
Proof.
  intros Hc. induction s as [|x s IH]; simpl; [auto|].
  destruct (Ascii.eqb l x); simpl.
  - intros [E | Hin]; [congruence | now right].
  - intros [E | Hin]; [now left | right; now apply IH].
Qed.

Lemma special_next_at (h g w1 w2 : str) (i : nat) (x : ascii) :
  special_marks h g w1 = Ok (Next w2) ->
  nth_error h i = Some "?" -> nth_error g i = Some x -> x <> "*" ->
  In x w1.
Proof.
  revert g w1 i.
  induction h as [|k0 h IH]; intros g w1 i E Hk Hx Hs;
    [destruct i; discriminate|].
  destruct g as [|x0 g]; [destruct i; discriminate|].
  simpl in E. destruct i as [|i]; simpl in Hk, Hx.
  - injection Hk as ->. injection Hx as ->. simpl in E.
    destruct (contains x w1) eqn:Ec; [|discriminate].
    now apply contains_In.
  - destruct (Ascii.eqb k0 "?").
    + destruct (contains x0 w1); [|discriminate].
      apply (replace_star_In w1 x0 x Hs). now apply (IH g _ i).
    + destruct (Ascii.eqb k0 "_").
      * destruct (contains x0 w1); [discriminate|]. now apply (IH g _ i).
      * now apply (IH g _ i).
Qed.

Lemma definite_never_returns_true (h g w : str) :
  definite_marks h g w <> Ok (Return true).
Proof.
  revert g w.
  induction h as [|k h IH]; intros g w; simpl; [discriminate|].
  destruct g as [|x g]; [discriminate|].
  destruct w as [|y w]; [discriminate|].
  specialize (IH g w).
  destruct (negb (valid_hint k)); [discriminate|].
  destruct (Ascii.eqb k "!"), (Ascii.eqb k "?"), (Ascii.eqb x y);
    try discriminate;
    destruct (definite_marks h g w) as [[?|[|]]|?]; simpl;
    congruence.
Qed.

Lemma special_never_returns_true (h g w : str) :
  special_marks h g w <> Ok (Return true).
Proof.
  revert g w.
  induction h as [|k h IH]; intros g w; simpl; [discriminate|].
  destruct g as [|x g]; [discriminate|].
  destruct (Ascii.eqb k "?"), (Ascii.eqb k "_"), (contains x w);
    try discriminate; apply IH.
Qed.

Lemma definite_all_exact_same (g : str) :
  definite_marks (repeat "!" (length g)) g g
  = Ok (Next (repeat "*" (length g))).
Proof.
  induction g as [|x g IH]; simpl; [reflexivity|].
  now rewrite Ascii.eqb_refl, IH.
Qed.

Lemma definite_all_exact_other (g w : str) :
  length w = length g -> w <> g ->
  definite_marks (repeat "!" (length g)) g w = Ok (Return false).
Proof.
  revert w.
  induction g as [|x g IH]; intros [|y w] Hl Hne; simpl in Hl;
    try discriminate; [contradiction|].
  injection Hl as Hl. simpl.
  destruct (Ascii.eqb_spec x y) as [-> | Hxy]; [|reflexivity].
  rewrite IH; [reflexivity | exact Hl | congruence].
Qed.

Lemma special_all_exact (n : nat) (g w : str) :
  n <= length g -> special_marks (repeat "!" n) g w = Ok (Next w).
Proof.
  revert g.
  induction n as [|n IH]; intros g Hl; simpl; [reflexivity|].
  destruct g as [|x g]; simpl in Hl; [lia|]. simpl. apply IH. lia.
Qed.

End Acceptance.

(** X7: what an accepted word must look like.  When the filter returns
    [True] on word, guess and hints (the hints not longer than the other
    two), every character of the hints is [!], [?] or [_]; at a position
    marked [!] the word has the letter of the guess; at a position marked
    [?] the word has another letter than the guess, and the letter of the
    guess (when it is not the character [*]) occurs in the word. *)
Theorem accepted_word_agrees_with_hints (w g h : str) :
  length h <= length g -> length h <= length w ->
  check_word_vs_guess_and_hints w g h = Ok true ->
  forallb valid_hint h = true /\
  forall i k x y,
    nth_error h i = Some k -> nth_error g i = Some x ->
    nth_error w i = Some y ->
    (k = "!" -> x = y) /\
    (k = "?" -> x <> y /\ (x <> "*" -> In x w)).
Proof.
  intros Lg Lw. rewrite check_spec by assumption.
  destruct (definite_marks h g w) as [[w1|b]|e] eqn:E1; simpl;
    [|intros E; injection E as ->|discriminate].
  - destruct (definite_next_at h g w w1 E1) as (Hv & Hin & Hat).
    destruct (special_marks h g w1) as [[w2|b]|e] eqn:E2; simpl;
      [intros _| |discriminate].
    + split; [exact Hv|]. intros i k x y Hk Hx Hy.
      destruct (Hat i k x y Hk Hx Hy) as [Hb Hq].
      split; [exact Hb|]. intros ->. split; [now apply Hq|].
      intros Hs. apply (Hin x Hs).
      now apply (special_next_at h g w1 w2 i x).
    + intros E. injection E as ->.
      now apply special_never_returns_true in E2.
  - now apply definite_never_returns_true in E1.
Qed.

Lemma accepted_word_agrees_with_hints_witness :
  length (py "???_?") <= length (py "GHOST") /\
  length (py "???_?") <= length (py "TOUGH") /\
  check_word_vs_guess_and_hints (py "TOUGH") (py "GHOST") (py "???_?")
  = Ok true /\
  forallb valid_hint (py "???_?") = true.
Proof.
  assert (H1 : length (py "???_?") <= length (py "GHOST")) by (simpl; lia).
  assert (H2 : length (py "???_?") <= length (py "TOUGH")) by (simpl; lia).
  assert (H3 : check_word_vs_guess_and_hints (py "TOUGH") (py "GHOST")
                 (py "???_?") = Ok true) by reflexivity.
  split; [exact H1|]. split; [exact H2|]. split; [exact H3|].
  exact (proj1 (accepted_word_agrees_with_hints _ _ _ H1 H2 H3)).
Defined.

(** X8: with a hint of [!] only, the filter accepts the guess itself and no
    other word of its length, whatever the characters of the words. *)
Theorem full_match_hint_accepts_only_the_guess (w g : str) :
  length w = length g ->
  exists b,
    check_word_vs_guess_and_hints w g (repeat "!" (length g)) = Ok b /\
    (b = true <-> w = g).
Proof.
  intros Hl. rewrite check_spec by (rewrite repeat_length; lia).
  destruct (List.list_eq_dec ascii_dec w g) as [-> | Hne].
  - rewrite definite_all_exact_same. simpl.
    rewrite special_all_exact by lia. exists true. tauto.
  - rewrite definite_all_exact_other by assumption. simpl.
    exists false. split; [reflexivity|]. split; [discriminate | contradiction].
Qed.

Lemma full_match_hint_accepts_only_the_guess_witness :
  length (py "SPEED") = length (py "ERASE") /\
  exists b,
    check_word_vs_guess_and_hints (py "SPEED") (py "ERASE")
      (repeat "!"%char (length (py "ERASE"))) = Ok b /\
    (b = true <-> py "SPEED" = py "ERASE").
Proof.
  split; [reflexivity|].
  apply full_match_hint_accepts_only_the_guess. reflexivity.
Defined.

(** ** More on the reducer *)

Section Reducer.

Lemma filter_twice (f : str -> bool) (ws : list str) :
  List.filter f (List.filter f ws) = List.filter f ws.
Proof.
  induction ws as [|w ws IH]; simpl; [reflexivity|].
  destruct (f w) eqn:E; simpl; [|exact IH]. now rewrite E, IH.
Qed.

Lemma filter_swap (f1 f2 : str -> bool) (ws : list str) :
  List.filter f1 (List.filter f2 ws) = List.filter f2 (List.filter f1 ws).
Proof.
  induction ws as [|w ws IH]; simpl; [reflexivity|].
  destruct (f1 w) eqn:E1, (f2 w) eqn:E2; simpl;
    rewrite ?E1, ?E2, IH; reflexivity.
Qed.

Lemma returns_Forall (ws : list str) (g h : str) :
  forallb (returns g h) ws = true ->
  Forall (fun w => exists b, check_word_vs_guess_and_hints w g h = Ok b) ws.
Proof.
  rewrite forallb_forall. intros H. apply List.Forall_forall. intros w Hw.
  specialize (H w Hw). unfold returns in H.
  destruct (check_word_vs_guess_and_hints w g h) as [b|e];
    [now exists b | discriminate].
Qed.

Lemma returns_on_filtered (f : str -> bool) (ws : list str) (g h : str) :
  forallb (returns g h) ws = true ->
  forallb (returns g h) (List.filter f ws) = true.
Proof.
  rewrite !forallb_forall. intros H w Hw.
  apply List.filter_In in Hw as [Hw _]. now apply H.
Qed.

Lemma reduce_list_is_filter (ws r : list str) (g h : str) :
  reduce_list ws g h = Ok r -> r = List.filter (accepts g h) ws.
Proof.
  intros E. pose proof (reduce_list_returns ws r g h E) as Hr.
  rewrite (reduce_list_filter ws g h (returns_Forall ws g h Hr)) in E.
  congruence.
Qed.

Lemma getitem_raises (s : str) (i : nat) (e : exn) :
  getitem s i = Raise e -> e = IndexError.
Proof.
  unfold getitem. destruct (nth_error s i); [discriminate | congruence].
Qed.

Lemma check_definite_raises (todo : str) (ind : nat) (word guess : str)
    (e : exn) :
  check_definite todo ind word guess = Raise e ->
  e = IndexError \/
  exists k, In k todo /\ valid_hint k = false /\
            e = ValueError_invalid_hint k.
Proof.
  revert ind word.
  induction todo as [|k todo IH]; intros ind word E; simpl in E;
    [discriminate|].
  assert (Hrec : forall word',
             check_definite todo (S ind) word' guess = Raise e ->
             e = IndexError \/
             exists k', In k' (k :: todo) /\ valid_hint k' = false /\
                        e = ValueError_invalid_hint k').
  { intros word' E'. destruct (IH _ _ E') as [-> | (k' & Hin & Hk & ->)];
      [now left | right; exists k'; simpl; auto]. }
  destruct (valid_hint k) eqn:Ev; simpl in E.
  - destruct (Ascii.eqb k "!"), (Ascii.eqb k "?");
      try (now apply (Hrec word));
      (destruct (getitem guess ind) as [x|e1] eqn:E1; simpl in E;
       [|left; injection E as <-; now apply (getitem_raises guess ind)];
       destruct (getitem word ind) as [y|e2] eqn:E2; simpl in E;
       [|left; injection E as <-; now apply (getitem_raises word ind)];
       destruct (Ascii.eqb x y); try discriminate; now apply Hrec in E).
  - right. exists k. injection E as <-. simpl. auto.
Qed.

Lemma check_special_raises (todo : str) (ind : nat) (word guess : str)
    (e : exn) :
  check_special todo ind word guess = Raise e -> e = IndexError.
Proof.
  revert ind word.
  induction todo as [|k todo IH]; intros ind word E; simpl in E;
    [discriminate|].
  destruct (Ascii.eqb k "?"), (Ascii.eqb k "_");
    try (now apply IH in E);
    (destruct (getitem guess ind) as [x|e1] eqn:E1; simpl in E;
     [|injection E as <-; now apply (getitem_raises guess ind)];
     destruct (contains x word); try discriminate; now apply IH in E).
Qed.

End Reducer.

(** X9: reducing twice with the same guess and hints changes nothing: when
    [reduce_list] returns a list, [reduce_list] on that list with the same
    guess and hints returns it again. *)
Theorem reduce_list_idempotent (ws r : list str) (g h : str) :
  reduce_list ws g h = Ok r -> reduce_list r g h = Ok r.
Proof.
  intros E. pose proof (reduce_list_returns ws r g h E) as Hr.
  rewrite (reduce_list_is_filter ws r g h E).
  rewrite reduce_list_filter
    by (apply returns_Forall; now apply returns_on_filtered).
  now rewrite filter_twice.
Qed.

Lemma reduce_list_idempotent_witness :
  let ws := [py "TOUGH"; py "GHOST"; py "THOSE"; py "OUGHT"] in
  reduce_list ws (py "GHOST") (py "???_?") = Ok [py "TOUGH"] /\
  reduce_list [py "TOUGH"] (py "GHOST") (py "???_?") = Ok [py "TOUGH"].
Proof.
  intros ws.
  assert (H : reduce_list ws (py "GHOST") (py "???_?") = Ok [py "TOUGH"])
    by reflexivity.
  split; [exact H|]. exact (reduce_list_idempotent _ _ _ _ H).
Defined.

(** X10: two clues can be applied in either order: when reducing by a first
    guess and hints and then by a second returns a list, and reducing in the
    other order returns one too, the two lists are equal. *)
Theorem reduce_list_commutes (ws r1 r12 r2 r21 : list str)
    (g1 h1 g2 h2 : str) :
  reduce_list ws g1 h1 = Ok r1 -> reduce_list r1 g2 h2 = Ok r12 ->
  reduce_list ws g2 h2 = Ok r2 -> reduce_list r2 g1 h1 = Ok r21 ->
  r12 = r21.
Proof.
  intros E1 E12 E2 E21.
  apply reduce_list_is_filter in E1, E12, E2, E21. subst.
  apply filter_swap.
Qed.

Lemma reduce_list_commutes_witness :
  let ws :=
    [py "POWER"; py "LOWER"; py "TOWER"; py "CRANE"; py "WOMEN"; py "OTHER"]
  in
  let r1 := [py "POWER"; py "LOWER"; py "TOWER"; py "OTHER"] in
  let r := [py "POWER"; py "LOWER"; py "TOWER"] in
  reduce_list ws (py "CRANE") (py "_?__?") = Ok r1 /\
  reduce_list r1 (py "WOMEN") (py "?!_!_") = Ok r /\
  reduce_list ws (py "WOMEN") (py "?!_!_") = Ok r /\
  reduce_list r (py "CRANE") (py "_?__?") = Ok r /\
  r = r.
Proof.
  intros ws r1 r.
  assert (E1 : reduce_list ws (py "CRANE") (py "_?__?") = Ok r1)
    by reflexivity.
  assert (E12 : reduce_list r1 (py "WOMEN") (py "?!_!_") = Ok r)
    by reflexivity.
  assert (E2 : reduce_list ws (py "WOMEN") (py "?!_!_") = Ok r)
    by reflexivity.
  assert (E21 : reduce_list r (py "CRANE") (py "_?__?") = Ok r)
    by reflexivity.
  split; [exact E1|]. split; [exact E12|]. split; [exact E2|].
  split; [exact E21|].
  exact (reduce_list_commutes _ _ _ _ _ _ _ _ _ E1 E12 E2 E21).
Defined.

(** X11: [reduce_list] raises an exception exactly when the filter raises
    it on some word of the list and returns a verdict on all the words
    before it: the exception is that of the first word the filter fails
    on, and words after it are not looked at. *)
Theorem reduce_list_raises_first_error (ws : list str) (g h : str)
    (e : exn) :
  reduce_list ws g h = Raise e <->
  exists before w after,
    ws = before ++ w :: after /\
    forallb (returns g h) before = true /\
    check_word_vs_guess_and_hints w g h = Raise e.
Proof.
  split.
  - induction ws as [|w ws IH]; simpl; [discriminate|].
    destruct (check_word_vs_guess_and_hints w g h) as [keep|e'] eqn:Ew;
      simpl.
    + destruct (reduce_list ws g h) as [rest|e'']; simpl; [discriminate|].
      intros E. injection E as ->.
      destruct (IH eq_refl) as (before & w' & after & -> & Hb & Hw).
      exists (w :: before), w', after. split; [reflexivity|].
      split; [|exact Hw]. simpl. unfold returns at 1. now rewrite Ew.
    + intros E. injection E as ->. now exists [], w, ws.
  - intros (before & w & after & -> & Hb & Hw).
    induction before as [|x before IH]; simpl.
    + now rewrite Hw.
    + simpl in Hb. apply andb_true_iff in Hb as [Hx Hb].
      unfold returns in Hx.
      destruct (check_word_vs_guess_and_hints x g h); [|discriminate].
      simpl. now rewrite (IH Hb).
Qed.

(** X12: the only exceptions of the filter.  When the filter raises, it is
    either the [ValueError] for a character of the hints that is not [!],
    [?] or [_], or an [IndexError], and this only when the guess or the
    word is shorter than the hints. *)
Theorem filter_exceptions (w g h : str) (e : exn) :
  check_word_vs_guess_and_hints w g h = Raise e ->
  (exists k, In k h /\ valid_hint k = false /\
             e = ValueError_invalid_hint k) \/
  (e = IndexError /\ (length g < length h \/ length w < length h)).
Proof.
  intros E.
  destruct (Nat.le_gt_cases (length h) (length g)) as [Lg | Lg];
    [destruct (Nat.le_gt_cases (length h) (length w)) as [Lw | Lw]|].
  - destruct (forallb valid_hint h) eqn:Ev.
    + destruct (check_total w g h Ev Lg Lw) as (b & Hb). congruence.
    + destruct (invalid_hint_never_accepted w g h Ev Lg Lw)
        as [Hf | (k & Hin & Hk & Hr)]; [congruence|].
      left. exists k. repeat split; auto. congruence.
  - assert (Hkind : e = IndexError \/
                    exists k, In k h /\ valid_hint k = false /\
                              e = ValueError_invalid_hint k).
    { unfold check_word_vs_guess_and_hints in E.
      destruct (check_definite h 0 w g) as [[w1|b]|e1] eqn:E1; simpl in E.
      - destruct (check_special h 0 w1 g) as [[w2|b]|e2] eqn:E2;
          simpl in E; try discriminate.
        injection E as <-. left. now apply check_special_raises in E2.
      - discriminate.
      - injection E as <-. now apply check_definite_raises in E1. }
    destruct Hkind as [-> | Hk]; [right; auto | now left].
  - assert (Hkind : e = IndexError \/
                    exists k, In k h /\ valid_hint k = false /\
                              e = ValueError_invalid_hint k).
    { unfold check_word_vs_guess_and_hints in E.
      destruct (check_definite h 0 w g) as [[w1|b]|e1] eqn:E1; simpl in E.
      - destruct (check_special h 0 w1 g) as [[w2|b]|e2] eqn:E2;
          simpl in E; try discriminate.
        injection E as <-. left. now apply check_special_raises in E2.
      - discriminate.
      - injection E as <-. now apply check_definite_raises in E1. }
    destruct Hkind as [-> | Hk]; [right; auto | now left].
Qed.

Lemma filter_exceptions_witness :
  check_word_vs_guess_and_hints (py "AB") (py "A") (py "!!")
  = Raise IndexError /\
  length (py "A") < length (py "!!").
Proof.
  assert (H : check_word_vs_guess_and_hints (py "AB") (py "A") (py "!!")
              = Raise IndexError) by reflexivity.
  split; [exact H|].
  destruct (filter_exceptions _ _ _ _ H) as [(k & _ & _ & Hk) | (_ & Hl)].
  - discriminate.
  - destruct Hl as [Hl | Hl]; [exact Hl | simpl in Hl; lia].
Defined.

(** ** More on the loader *)

Section LoadedWords.

Lemma is_space_upper (c : ascii) : is_space (upper_char c) = is_space c.
Proof. destruct c as [[] [] [] [] [] [] [] []]; reflexivity. Qed.

Lemma upper_char_twice (c : ascii) : upper_char (upper_char c) = upper_char c.
Proof. destruct c as [[] [] [] [] [] [] [] []]; reflexivity. Qed.

Lemma upper_twice (s : str) : upper (upper s) = upper s.
Proof.
  unfold upper. rewrite map_map. apply map_ext. apply upper_char_twice.
Qed.

Lemma lstrip_upper (s : str) : lstrip (upper s) = upper (lstrip s).
Proof.
  induction s as [|c s IH]; simpl; [reflexivity|].
  rewrite is_space_upper. now destruct (is_space c).
Qed.

Lemma strip_upper (s : str) : strip (upper s) = upper (strip s).
Proof.
  unfold strip, rstrip, upper.
  fold (upper s). rewrite lstrip_upper. unfold upper.
  rewrite <- map_rev. fold (upper (rev (lstrip s))).
  rewrite lstrip_upper. unfold upper. now rewrite map_rev.
Qed.

Lemma lstrip_twice (s : str) : lstrip (lstrip s) = lstrip s.
Proof.
  induction s as [|c s IH]; simpl; [reflexivity|].
  destruct (is_space c) eqn:E; [exact IH|]. simpl. now rewrite E.
Qed.

Lemma lstrip_head (s t : str) (c : ascii) :
  lstrip s = c :: t -> is_space c = false.
Proof.
  induction s as [|x s IH]; simpl; [discriminate|].
  destruct (is_space x) eqn:E; [exact IH|]. intros H. now injection H as <- _.
Qed.

Lemma rstrip_keeps_head (s : str) (c : ascii) :
  is_space c = false -> exists t, rstrip (c :: s) = c :: t.
Proof.
  intros Hc. unfold rstrip. simpl.
  destruct (lstrip_snoc (rev s) c Hc) as (l' & ->).
  rewrite rev_app_distr. simpl. now exists (rev l').
Qed.

Lemma strip_twice (s : str) : strip (strip s) = strip s.
Proof.
  unfold strip.
  assert (H : lstrip (rstrip (lstrip s)) = rstrip (lstrip s)).
  { destruct (lstrip s) as [|c t] eqn:E; [reflexivity|].
    pose proof (lstrip_head s t c E) as Hc.
    destruct (rstrip_keeps_head t c Hc) as (t' & ->).
    simpl. now rewrite Hc. }
  rewrite H. unfold rstrip. now rewrite rev_involutive, lstrip_twice.
Qed.

Lemma check_lengths_Ok (ws : list str) (n : nat) (u : unit) :
  check_lengths ws n = Ok u -> Forall (fun w => length w = n) ws.
Proof.
  induction ws as [|w ws IH]; simpl; [constructor|].
  destruct (Nat.eqb_spec (length w) n) as [E | E]; simpl; [|discriminate].
  intros H. constructor; auto.
Qed.

Lemma kept_words_shape (comment_char : str) (file : list str) (w : str) :
  In w (kept_words comment_char file) ->
  w <> [] /\ strip w = w /\ upper w = w.
Proof.
  unfold kept_words. rewrite in_map_iff.
  intros (l & <- & Hl). apply List.filter_In in Hl as [_ Hk].
  unfold kept_line in Hk. apply andb_true_iff in Hk as [_ Hk].
  split; [|split].
  - destruct (strip l); [discriminate | discriminate].
  - now rewrite strip_upper, strip_twice.
  - apply upper_twice.
Qed.

Lemma kept_words_length (comment_char : str) (file : list str) :
  length (kept_words comment_char file) <= length file.
Proof.
  unfold kept_words. rewrite length_map. apply filter_length.
Qed.

Lemma kept_sublist (f : str -> str) (p : str -> bool) (file : list str) :
  sublist (map f (List.filter p file)) (map f file).
Proof.
  induction file as [|l file IH]; simpl; [constructor|].
  destruct (p l); simpl; now constructor.
Qed.

Lemma filter_all (p : str -> bool) (file : list str) :
  forallb p file = true -> List.filter p file = file.
Proof.
  induction file as [|l file IH]; simpl; [reflexivity|].
  intros H. apply andb_true_iff in H as [-> H]. now rewrite IH.
Qed.

End LoadedWords.

(** X13: what the checking loader returns.  When it returns a list, the
    list is not empty, all its words have one length, which is not zero,
    every word is free of white space at both ends and unchanged by
    [upper], and there are at most as many words as lines. *)
Theorem lenient_loader_result (comment_char : str) (file ws : list str) :
  read_file_as_words_list file true comment_char = Ok ws ->
  ws <> [] /\
  (exists n, 0 < n /\ Forall (fun w => length w = n) ws) /\
  Forall (fun w => strip w = w /\ upper w = w) ws /\
  length ws <= length file.
Proof.
  rewrite read_checked.
  pose proof (kept_words_shape comment_char file) as Hshape.
  pose proof (kept_words_length comment_char file) as Hlen.
  destruct (kept_words comment_char file) as [|w0 rest]; [discriminate|].
  destruct (check_lengths rest (length w0)) as [u|e] eqn:E; [|discriminate].
  intros H. injection H as <-.
  split; [discriminate|]. split; [|split; [|exact Hlen]].
  - exists (length w0). split.
    + destruct (Hshape w0 (or_introl eq_refl)) as (Hne & _).
      destruct w0; [contradiction | simpl; lia].
    + constructor; [reflexivity|]. now apply (check_lengths_Ok rest _ u).
  - apply List.Forall_forall. intros w Hw.
    destruct (Hshape w Hw) as (_ & H1 & H2). now split.
Qed.

Lemma lenient_loader_result_witness :
  let file := [line "# fruit"; line ""; line "  apple"; line "grape "] in
  read_file_as_words_list file true (py "#")
  = Ok [py "APPLE"; py "GRAPE"] /\
  [py "APPLE"; py "GRAPE"] <> [] /\
  length [py "APPLE"; py "GRAPE"] <= length file.
Proof.
  intros file.
  assert (H : read_file_as_words_list file true (py "#")
              = Ok [py "APPLE"; py "GRAPE"]) by reflexivity.
  split; [exact H|].
  destruct (lenient_loader_result _ _ _ H) as (H1 & _ & _ & H4).
  split; [exact H1 | exact H4].
Defined.

(** X14: the two ways of loading compared.  The loader without checks
    raises nothing and returns one word per line.  When the checking loader
    returns a list, it is a subsequence of what the loader without checks
    returns for the same file, and the same list when no line of the file
    is blank or starts with the comment marker. *)
Theorem lenient_is_part_of_strict (comment_char other : str)
    (file ws : list str) :
  read_file_as_words_list file true comment_char = Ok ws ->
  exists ws',
    read_file_as_words_list file false other = Ok ws' /\
    length ws' = length file /\
    sublist ws ws' /\
    (forallb (kept_line comment_char) file = true -> ws = ws').
Proof.
  rewrite read_checked. intros H.
  exists (map (fun w => upper (strip w)) file).
  split; [reflexivity|]. split; [apply length_map|].
  assert (E : ws = kept_words comment_char file).
  { destruct (kept_words comment_char file) as [|w0 rest]; [discriminate|].
    destruct (check_lengths rest (length w0)); [|discriminate].
    congruence. }
  subst ws. unfold kept_words. split; [apply kept_sublist|].
  intros Hall. now rewrite filter_all.
Qed.

Lemma lenient_is_part_of_strict_witness :
  let file := [line "# fruit"; line ""; line "  apple"; line "grape "] in
  read_file_as_words_list file true (py "#")
  = Ok [py "APPLE"; py "GRAPE"] /\
  read_file_as_words_list file false (py "#")
  = Ok [py "# FRUIT"; py ""; py "APPLE"; py "GRAPE"] /\
  sublist [py "APPLE"; py "GRAPE"]
    [py "# FRUIT"; py ""; py "APPLE"; py "GRAPE"].
Proof.
  intros file.
  assert (H : read_file_as_words_list file true (py "#")
              = Ok [py "APPLE"; py "GRAPE"]) by reflexivity.
  split; [exact H|].
  destruct (lenient_is_part_of_strict (py "#") (py "#") _ _ H)
    as (ws' & H1 & _ & H3 & _).
  assert (E : ws' = [py "# FRUIT"; py ""; py "APPLE"; py "GRAPE"])
    by (vm_compute in H1; now injection H1 as <-).
  subst ws'. split; [reflexivity | exact H3].
Defined.

(** ** Looking words up with several clues *)

Section Clues.

Lemma filter_both (f1 f2 : str -> bool) (ws : list str) :
  List.filter (fun w => f1 w && f2 w) ws
  = List.filter f2 (List.filter f1 ws).
Proof.
  induction ws as [|w ws IH]; simpl; [reflexivity|].
  destruct (f1 w); simpl; [|exact IH].
  destruct (f2 w); now rewrite IH.
Qed.

Lemma filter_true (ws : list str) :
  List.filter (fun _ => true) ws = ws.
Proof. induction ws as [|w ws IH]; simpl; congruence. Qed.

Lemma find_words_loop_spec (clues : list (str * str))
    (words : list str) (r : option (list str)) :
  find_words_loop clues words = Ok r ->
  r = found clues (List.filter (matches_all clues) words).
Proof.
  revert words.
  induction clues as [|[g h] clues IH]; intros words; simpl.
  - intros E. injection E as <-. now rewrite filter_true.
  - destruct (reduce_list words (upper g) h) as [words'|e] eqn:Er; simpl;
      [|discriminate].
    apply reduce_list_is_filter in Er.
    rewrite (filter_both (accepts (upper g) h) (matches_all clues)).
    rewrite <- Er.
    destruct words' as [|w words']; simpl.
    + intros E. injection E as <-. now destruct clues.
    + intros E. apply IH in E. rewrite E.
      destruct clues as [|gh clues]; simpl.
      * now rewrite filter_true.
      * reflexivity.
Qed.

Lemma matches_all_perm (clues clues' : list (str * str)) (w : str) :
  Permutation clues clues' -> matches_all clues w = matches_all clues' w.
Proof.
  unfold matches_all.
  induction 1 as [|gh l l' _ IH|gh1 gh2 l|l l' l'' _ IH1 _ IH2]; simpl.
  - reflexivity.
  - now rewrite IH.
  - now rewrite !andb_assoc, (andb_comm (accepts _ _ w)).
  - congruence.
Qed.

Lemma found_perm (clues clues' : list (str * str)) (m : list str) :
  Permutation clues clues' -> found clues m = found clues' m.
Proof.
  intros Hp. destruct clues as [|gh clues].
  - apply Permutation_nil in Hp. now subst.
  - destruct clues' as [|gh' clues']; [|reflexivity].
    apply Permutation_sym, Permutation_nil in Hp. discriminate.
Qed.

Lemma feedback_hint (target : str) (n : nat) (gh : str * str) :
  uppercase target -> length target = n -> feedback_for target n gh ->
  uppercase (upper (fst gh)) /\ length (upper (fst gh)) = n /\
  snd gh = hint_of (upper (fst gh)) target.
Proof.
  intros Ht Hn [Hw (state & Hm)].
  unfold word_of in Hw. apply andb_true_iff in Hw as [Hu Hl].
  apply Nat.eqb_eq in Hl.
  rewrite match_check_hint in Hm by (auto; congruence).
  repeat split; auto. congruence.
Qed.

Lemma find_words_loop_keeps_target (target : str) (n : nat)
    (clues : list (str * str)) (words : list str) :
  dictionary_of n words -> In target words ->
  Forall (feedback_for target n) clues ->
  exists r, find_words_loop clues words = Ok (Some r) /\
            In target r /\ sublist r words.
Proof.
  intros Hd Ht Hc. revert words Hd Ht.
  induction Hc as [|[g h] clues Hgh _ IH]; intros words Hd Ht; simpl.
  - exists words. repeat split; auto.
  - destruct (dictionary_word n words target Hd Ht) as [Ut Lt].
    destruct (feedback_hint target n (g, h) Ut Lt Hgh) as (Ug & Lg & Hh).
    simpl in Ug, Lg, Hh. subst h.
    rewrite (reduce_list_filter words).
    + simpl.
      assert (Hin : In target
                      (List.filter
                         (accepts (upper g) (hint_of (upper g) target))
                         words)).
      { apply List.filter_In. split; [exact Ht|].
        unfold accepts. rewrite target_survives; auto. congruence. }
      rewrite (truthy_list_In target _ Hin). simpl.
      destruct (IH _ (dictionary_filter n _ words Hd) Hin)
        as (r & -> & Hr & Hs).
      exists r. repeat split; auto.
      etransitivity; [exact Hs | apply filter_sublist].
    + apply List.Forall_forall. intros w Hw.
      destruct (dictionary_word n words w Hd Hw) as [_ Lw].
      apply check_total; rewrite ?hint_of_length; try lia.
      apply hint_of_valid; auto. congruence.
Qed.

Lemma find_words_in_dict_result_aux (clues : list (str * str))
    (file : list str) (check_input : bool) (comment_char : str)
    (r : option (list str)) :
  find_words_in_dict clues file check_input comment_char = Ok r ->
  exists words,
    read_file_as_words_list file check_input comment_char = Ok words /\
    r = found clues (List.filter (matches_all clues) words).
Proof.
  unfold find_words_in_dict.
  destruct (read_file_as_words_list file check_input comment_char)
    as [words|e]; simpl; [|discriminate].
  intros E. apply find_words_loop_spec in E. now exists words.
Qed.

End Clues.

(** X15: what [find_words_in_dict] returns.  When it returns, the file was
    loaded into a list of words, and the value is made of exactly the words
    of that list that pass the filter for every given pair of guess (put in
    upper case) and hints, in the order of the file; it is [None] instead
    when there is at least one pair and no such word.  An empty list is
    returned only for no pair at all and no word in the file. *)
Theorem find_words_in_dict_result (clues : list (str * str))
    (file : list str) (check_input : bool) (comment_char : str)
    (r : option (list str)) :
  find_words_in_dict clues file check_input comment_char = Ok r ->
  exists words,
    read_file_as_words_list file check_input comment_char = Ok words /\
    r = found clues (List.filter (matches_all clues) words) /\
    (r = Some [] -> clues = [] /\ words = []).
Proof.
  unfold find_words_in_dict.
  destruct (read_file_as_words_list file check_input comment_char)
    as [words|e]; simpl; [|discriminate].
  intros E. apply find_words_loop_spec in E.
  exists words. split; [reflexivity|]. split; [exact E|].
  intros Hr. rewrite Hr in E. destruct clues as [|gh clues].
  - simpl in E. rewrite filter_true in E. split; congruence.
  - simpl in E. destruct (List.filter _ words); discriminate.
Qed.

Lemma find_words_in_dict_result_witness :
  let file := [line "tough"; line "ghost"; line "those"; line "ought"] in
  find_words_in_dict [(py "ghost", py "???_?")] file false (py "#")
  = Ok (Some [py "TOUGH"]) /\
  exists words,
    read_file_as_words_list file false (py "#") = Ok words /\
    Some [py "TOUGH"]
    = found [(py "ghost", py "???_?")]
        (List.filter (matches_all [(py "ghost", py "???_?")]) words).
Proof.
  intros file.
  assert (H : find_words_in_dict [(py "ghost", py "???_?")] file false
                (py "#") = Ok (Some [py "TOUGH"])) by reflexivity.
  split; [exact H|].
  destruct (find_words_in_dict_result _ _ _ _ _ H) as (words & H1 & H2 & _).
  now exists words.
Defined.

(** X16: the look-up never loses the real solution.  When the file loads
    into a dictionary of upper-case words of one length that has the
    target, and every pair given is a guess of that length with the hints
    [match_check] returns for it against the target, [find_words_in_dict]
    raises nothing and returns a list that has the target and is a
    subsequence of the dictionary. *)
Theorem find_words_in_dict_keeps_target (clues : list (str * str))
    (file : list str) (check_input : bool) (comment_char : str)
    (words : list str) (target : str) (n : nat) :
  read_file_as_words_list file check_input comment_char = Ok words ->
  dictionary_of n words -> In target words ->
  Forall (feedback_for target n) clues ->
  exists r,
    find_words_in_dict clues file check_input comment_char = Ok (Some r) /\
    In target r /\ sublist r words.
Proof.
  intros Hread Hd Ht Hc. unfold find_words_in_dict. rewrite Hread. simpl.
  now apply (find_words_loop_keeps_target target n).
Qed.

Lemma find_words_in_dict_keeps_target_witness :
  let file := [line "power"; line "lower"; line "crane"; line "women"] in
  let words := [py "POWER"; py "LOWER"; py "CRANE"; py "WOMEN"] in
  let clues := [(py "crane", py "_?__?"); (py "women", py "?!_!_")] in
  read_file_as_words_list file true (py "#") = Ok words /\
  dictionary_of 5 words /\ In (py "POWER") words /\
  Forall (feedback_for (py "POWER") 5) clues /\
  exists r,
    find_words_in_dict clues file true (py "#") = Ok (Some r) /\
    In (py "POWER") r /\ sublist r words.
Proof.
  intros file words clues.
  assert (H1 : read_file_as_words_list file true (py "#") = Ok words)
    by reflexivity.
  assert (H2 : dictionary_of 5 words) by reflexivity.
  assert (H3 : In (py "POWER") words) by (simpl; auto).
  assert (H4 : Forall (feedback_for (py "POWER") 5) clues)
    by (repeat constructor; eexists; reflexivity).
  split; [exact H1|]. split; [exact H2|]. split; [exact H3|].
  split; [exact H4|].
  exact (find_words_in_dict_keeps_target _ _ _ _ _ _ _ H1 H2 H3 H4).
Defined.

(** X17: the order of the clues does not matter.  When
    [find_words_in_dict] returns for a list of pairs and also for a
    rearrangement of it, on the same file, it returns the same value. *)
Theorem find_words_in_dict_clue_order (clues clues' : list (str * str))
    (file : list str) (check_input : bool) (comment_char : str)
    (r r' : option (list str)) :
  Permutation clues clues' ->
  find_words_in_dict clues file check_input comment_char = Ok r ->
  find_words_in_dict clues' file check_input comment_char = Ok r' ->
  r = r'.
Proof.
  intros Hp E E'.
  apply find_words_in_dict_result_aux in E as (words & H1 & ->).
  apply find_words_in_dict_result_aux in E' as (words' & H1' & ->).
  assert (words' = words) by congruence. subst words'.
  rewrite (found_perm clues clues' _ Hp). f_equal.
  apply filter_ext. intros w. now apply matches_all_perm.
Qed.

Lemma find_words_in_dict_clue_order_witness :
  let file := [line "power"; line "lower"; line "crane"; line "women"] in
  let clues := [(py "crane", py "_?__?"); (py "women", py "?!_!_")] in
  let clues' := [(py "women", py "?!_!_"); (py "crane", py "_?__?")] in
  Permutation clues clues' /\
  find_words_in_dict clues file true (py "#")
  = Ok (Some [py "POWER"; py "LOWER"]) /\
  find_words_in_dict clues' file true (py "#")
  = Ok (Some [py "POWER"; py "LOWER"]).
Proof.
  intros file clues clues'.
  assert (Hp : Permutation clues clues') by apply perm_swap.
  assert (E : find_words_in_dict clues file true (py "#")
              = Ok (Some [py "POWER"; py "LOWER"])) by reflexivity.
  split; [exact Hp|]. split; [exact E|].
  destruct (find_words_in_dict clues' file true (py "#")) as [r'|e] eqn:E';
    [|discriminate].
  now rewrite (find_words_in_dict_clue_order _ _ _ _ _ _ _ Hp E E').
Defined.

(** ** The full-match flag on arbitrary strings *)

Section Flag.

Lemma exact_marks_all_bang (g t : str) :
  length g = length t ->
  forallb (fun l => Ascii.eqb l "!") (exact_marks g t) = true <->
  Forall2 exact_or_bang g t.
Proof.
  revert t.
  induction g as [|x g IH]; intros [|y t] Hl; simpl in Hl; try discriminate.
  - simpl. split; [constructor | reflexivity].
  - injection Hl as Hl. simpl. rewrite andb_true_iff, (IH t Hl).
    split.
    + intros [Hx Hrest]. constructor; [|exact Hrest].
      destruct (Ascii.eqb_spec x y) as [-> | _]; [now left|].
      right. now apply Ascii.eqb_eq.
    + intros H. inversion H as [|? ? ? ? Hxy Hrest]; subst.
      split; [|exact Hrest].
      destruct (Ascii.eqb_spec x y) as [-> | Hne]; [reflexivity|].
      destruct Hxy as [-> | ->]; [contradiction | reflexivity].
Qed.

End Flag.

(** X18: the full-match flag, whatever the characters.  For two strings of
    one length, [match_check] reports a full match exactly when the guess
    has, at every position, the character of the target or the character
    [!]; the hint is then made of [!] only.  So a guess made of [!] only is
    reported as a full match for every target of its length. *)
Theorem full_match_flag (guess target : str) :
  length guess = length target ->
  exists state hint,
    match_check guess target = Ok (state, hint) /\
    (state = true <-> Forall2 exact_or_bang guess target) /\
    (state = true -> hint = repeat "!" (length guess)) /\
    (guess = repeat "!" (length target) -> state = true).
Proof.
  intros Hl. rewrite match_check_spec by lia.
  pose proof (exact_marks_all_bang guess target Hl) as Hiff.
  destruct (forallb _ (exact_marks guess target)) eqn:E.
  - eexists _, _. split; [reflexivity|]. split; [tauto|]. split; [|auto].
    intros _. apply all_exact_is_repeat in E.
    now rewrite exact_marks_length in E.
  - eexists _, _. split; [reflexivity|]. split; [|split].
    + split; [discriminate|]. intros H. apply Hiff in H. discriminate.
    + discriminate.
    + intros ->. exfalso.
      assert (H : Forall2 exact_or_bang (repeat "!" (length target)) target).
      { clear. induction target as [|y t IH]; simpl; constructor;
          [now right | exact IH]. }
      apply Hiff in H. discriminate.
Qed.

Lemma full_match_flag_witness :
  length (py "!!!!!") = length (py "TRACE") /\
  match_check (py "!!!!!") (py "TRACE") = Ok (true, py "!!!!!").
Proof.
  split; [reflexivity|].
  destruct (full_match_flag (py "!!!!!") (py "TRACE") eq_refl)
    as (state & hint & Hm & _ & Hh & Hs).
  rewrite Hm. rewrite (Hh (Hs eq_refl)), (Hs eq_refl). reflexivity.
Defined.

(** ** Asking the user *)

Section Asking.

Lemma input_check_loop_first (n : nat) (prompt : str) (wrong : list str)
    (usr : str) (rest out : list str) (fuel : nat) :
  Forall (fun l => length l <> n) wrong -> length usr = n ->
  length wrong < fuel ->
  exists out',
    Console.input_check_loop fuel (Some n) prompt
      {| Console.stdin := wrong ++ usr :: rest; Console.stdout := out |}
    = Some (Console.Returned usr
              {| Console.stdin := rest; Console.stdout := out' |}) /\
    length out' = length out + 2 * length wrong + 1.
Proof.
  intros Hw Hu. revert out fuel.
  induction Hw as [|l wrong Hl _ IH]; intros out fuel Hf;
    (destruct fuel as [|fuel]; [simpl in Hf; lia|]); simpl.
  - rewrite Hu, Nat.eqb_refl. simpl. eexists. split; [reflexivity|].
    rewrite length_app. simpl. lia.
  - apply Nat.eqb_neq in Hl. rewrite Hl. simpl.
    unfold Console.print. simpl.
    match goal with
    | |- context [{| Console.stdin := _; Console.stdout := ?o |}] =>
        destruct (IH o fuel) as (out' & E & Hlen); [simpl in Hf; lia|];
        rewrite !length_app in Hlen; simpl in Hlen
    end.
    exists out'. split; [exact E | lia].
Qed.

Lemma input_check_loop_eof (n : nat) (prompt : str) (wrong out : list str)
    (fuel : nat) :
  Forall (fun l => length l <> n) wrong -> length wrong < fuel ->
  exists out',
    Console.input_check_loop fuel (Some n) prompt
      {| Console.stdin := wrong; Console.stdout := out |}
    = Some (Console.Raised Console.EOFError
              {| Console.stdin := []; Console.stdout := out' |}).
Proof.
  intros Hw. revert out fuel.
  induction Hw as [|l wrong Hl _ IH]; intros out fuel Hf;
    (destruct fuel as [|fuel]; [simpl in Hf; lia|]); simpl.
  - eexists. reflexivity.
  - apply Nat.eqb_neq in Hl. rewrite Hl. simpl.
    unfold Console.print. simpl. apply IH. simpl in Hf. lia.
Qed.

Lemma getitem_last_nonempty (p : str) :
  p <> [] -> Console.getitem_last p = Ok (List.last p " ").
Proof.
  intros Hp. destruct (exists_last Hp) as (p' & x & ->).
  rewrite List.last_last. unfold Console.getitem_last.
  destruct (p' ++ [x]) eqn:E; [now destruct p'|]. rewrite <- E.
  apply getitem_here. rewrite length_app. simpl. lia.
Qed.

Lemma lower_nil_iff (inp : str) : truthy (Console.lower inp) = truthy inp.
Proof. now destruct inp. Qed.

(** The test of the loop of [yn_prompt] in terms of [yn_reading]. *)
Lemma yn_loop_reading (default : option str) (opt : Z) (inp : str) :
  default_answer default
  = (if (opt =? 1)%Z then Some true
     else if (opt =? 0)%Z then Some false else None) ->
  yn_reading default inp
  = if (negb (truthy inp) && (opt =? 1)%Z)
       || startswith (Console.lower inp) (py "y")
    then Some true
    else if (negb (truthy inp) && (opt =? 0)%Z)
            || startswith (Console.lower inp) (py "n")
    then Some false
    else None.
Proof.
  intros Hd. unfold yn_reading. rewrite Hd.
  destruct inp as [|x inp]; simpl.
  - destruct (opt =? 1)%Z; [reflexivity|]. now destruct (opt =? 0)%Z.
  - now destruct (Ascii.eqb "y" (Console.lower_char x)).
Qed.

Lemma yn_prompt_loop_first (default : option str) (opt : Z)
    (prompt : str) (verbose : bool) (undecided : list str) (ans : str)
    (b : bool) (rest out : list str) (fuel : nat) :
  default_answer default
  = (if (opt =? 1)%Z then Some true
     else if (opt =? 0)%Z then Some false else None) ->
  Forall (fun l => yn_reading default l = None) undecided ->
  yn_reading default ans = Some b ->
  length undecided < fuel ->
  exists out',
    Console.yn_prompt_loop fuel prompt opt verbose
      {| Console.stdin := undecided ++ ans :: rest; Console.stdout := out |}
    = Some (Console.Returned b
              {| Console.stdin := rest; Console.stdout := out' |}).
Proof.
  intros Hd Hu Ha. revert out fuel.
  induction Hu as [|l undecided Hl _ IH]; intros out fuel Hf;
    (destruct fuel as [|fuel]; [simpl in Hf; lia|]);
    cbn [Console.yn_prompt_loop Console.input Console.stdin Console.stdout
         app].
  - rewrite (yn_loop_reading default opt ans Hd) in Ha.
    destruct ((negb (truthy ans) && (opt =? 1)%Z)
              || startswith (Console.lower ans) (py "y")).
    + injection Ha as <-. eexists. reflexivity.
    + destruct ((negb (truthy ans) && (opt =? 0)%Z)
                || startswith (Console.lower ans) (py "n"));
        [|discriminate].
      injection Ha as <-. eexists. reflexivity.
  - rewrite (yn_loop_reading default opt l Hd) in Hl.
    destruct ((negb (truthy l) && (opt =? 1)%Z)
              || startswith (Console.lower l) (py "y")); [discriminate|].
    destruct ((negb (truthy l) && (opt =? 0)%Z)
              || startswith (Console.lower l) (py "n")); [discriminate|].
    destruct verbose; apply IH; simpl in Hf; lia.
Qed.

End Asking.

(** X19: [input_check] with a required length returns the first typed line
    of that length.  The lines before it are used up, each answered by the
    message about the length and a new prompt, and the lines after it are
    left to be read.  When no typed line has the length, the end of the
    input is reached and [EOFError] is raised. *)
Theorem input_check_first_of_length (n : nat) (prompt : option str)
    (wrong : list str) (usr : str) (rest out : list str) (fuel : nat) :
  Forall (fun l => length l <> n) wrong -> length wrong < fuel ->
  (length usr = n ->
   exists out',
     Console.input_check fuel (Some n) prompt false
       {| Console.stdin := wrong ++ usr :: rest; Console.stdout := out |}
     = Some (Console.Returned usr
               {| Console.stdin := rest; Console.stdout := out' |}) /\
     length out' = length out + 2 * length wrong + 1) /\
  (exists out',
     Console.input_check fuel (Some n) prompt false
       {| Console.stdin := wrong; Console.stdout := out |}
     = Some (Console.Raised Console.EOFError
               {| Console.stdin := []; Console.stdout := out' |})).
Proof.
  intros Hw Hf. unfold Console.input_check. split.
  - intros Hu. destruct prompt; now apply input_check_loop_first.
  - destruct prompt; now apply input_check_loop_eof.
Qed.

Lemma input_check_first_of_length_witness :
  Forall (fun l => length l <> 5) [py "abc"; py "toolong"] /\
  length [py "abc"; py "toolong"] < 3 /\
  length (py "crane") = 5 /\
  exists out',
    Console.input_check 3 (Some 5) (Some (py "> ")) false
      {| Console.stdin := [py "abc"; py "toolong"] ++ py "crane" :: [py "x"];
         Console.stdout := [] |}
    = Some (Console.Returned (py "crane")
              {| Console.stdin := [py "x"]; Console.stdout := out' |}) /\
    length out' = 0 + 2 * 2 + 1.
Proof.
  assert (H1 : Forall (fun l => length l <> 5) [py "abc"; py "toolong"])
    by (repeat constructor; discriminate).
  assert (H2 : length [py "abc"; py "toolong"] < 3) by (simpl; lia).
  split; [exact H1|]. split; [exact H2|]. split; [reflexivity|].
  apply (proj1 (input_check_first_of_length 5 (Some (py "> ")) _
                  (py "crane") [py "x"] [] 3 H1 H2)).
  reflexivity.
Defined.

(** X20: the prompt of [input_check] with [trail_whitespace].  An empty
    prompt raises [IndexError] before anything is read or written.  A
    prompt that is not empty is shown with a space at its end: as it is
    when it ends with a space, and with one space added otherwise. *)
Theorem input_check_trailing_space (fuel : nat) (length : option nat)
    (prompt : str) (c : Console.console) :
  (prompt = [] ->
   Console.input_check fuel length (Some prompt) true c
   = Some (Console.Raised (Console.Python IndexError) c)) /\
  (prompt <> [] ->
   exists shown,
     Console.input_check fuel length (Some prompt) true c
     = Console.input_check fuel length (Some shown) false c /\
     List.last shown "x" = " " /\
     (List.last prompt "x" = " " -> shown = prompt) /\
     (List.last prompt "x" <> " " -> shown = prompt ++ [" "])).
Proof.
  split.
  - now intros ->.
  - intros Hp. unfold Console.input_check.
    rewrite (getitem_last_nonempty prompt Hp). simpl.
    destruct (exists_last Hp) as (p' & x & ->). rewrite !List.last_last.
    destruct (Ascii.eqb_spec x " ") as [-> | Hx]; simpl.
    + exists (p' ++ [" "]). rewrite List.last_last. repeat split; auto.
      contradiction.
    + exists ((p' ++ [x]) ++ [" "]). rewrite List.last_last.
      repeat split; auto. contradiction.
Qed.

Lemma input_check_trailing_space_witness :
  Console.input_check 1 None (Some (py "")) true
    {| Console.stdin := [py "abc"]; Console.stdout := [] |}
  = Some (Console.Raised (Console.Python IndexError)
            {| Console.stdin := [py "abc"]; Console.stdout := [] |}) /\
  py "guess:" <> [] /\
  exists shown,
    Console.input_check 1 None (Some (py "guess:")) true
      {| Console.stdin := [py "abc"]; Console.stdout := [] |}
    = Console.input_check 1 None (Some shown) false
        {| Console.stdin := [py "abc"]; Console.stdout := [] |} /\
    List.last shown "x"%char = " "%char.
Proof.
  split; [|split; [discriminate|]].
  - apply (proj1 (input_check_trailing_space 1 None (py "") _)).
    reflexivity.
  - destruct (proj2 (input_check_trailing_space 1 None (py "guess:")
                       {| Console.stdin := [py "abc"];
                          Console.stdout := [] |}))
      as (shown & H1 & H2 & _); [discriminate|].
    now exists shown.
Defined.

(** X21: [yn_prompt] returns what the first typed answer with a meaning
    says, and leaves the lines after it to be read.  An answer that starts
    with y or Y means yes, whatever the default; the empty answer means the
    default, when [default] is one of y, yes, n, no in any case of letters;
    an answer that starts with n or N means no; the question is asked again
    after every other answer. *)
Theorem yn_prompt_first_answer (prompt : str) (default : option str)
    (verbose : bool) (undecided : list str) (ans : str) (b : bool)
    (rest out : list str) (fuel : nat) :
  Forall (fun l => yn_reading default l = None) undecided ->
  yn_reading default ans = Some b ->
  length undecided < fuel ->
  exists out',
    Console.yn_prompt fuel prompt default verbose
      {| Console.stdin := undecided ++ ans :: rest; Console.stdout := out |}
    = Some (Console.Returned b
              {| Console.stdin := rest; Console.stdout := out' |}).
Proof.
  intros Hu Ha Hf. unfold Console.yn_prompt.
  destruct default as [d|].
  - destruct (Console.str_in (Console.lower d) [py "y"; py "yes"]) eqn:Ey.
    + cbv beta iota zeta. apply (yn_prompt_loop_first (Some d)); auto.
      unfold default_answer. now rewrite Ey.
    + destruct (Console.str_in (Console.lower d) [py "n"; py "no"]) eqn:En.
      * cbv beta iota zeta. apply (yn_prompt_loop_first (Some d)); auto.
        unfold default_answer. now rewrite Ey, En.
      * destruct verbose; cbv beta iota zeta; unfold Console.print;
          cbn [Console.stdin Console.stdout];
          apply (yn_prompt_loop_first (Some d)); auto;
          unfold default_answer; now rewrite Ey, En.
  - cbv beta iota zeta. now apply (yn_prompt_loop_first None).
Qed.

Lemma yn_prompt_first_answer_witness :
  Forall (fun l => yn_reading (Some (py "Yes")) l = None)
    [py "maybe"; py " y"] /\
  yn_reading (Some (py "Yes")) (py "") = Some true /\
  length [py "maybe"; py " y"] < 3 /\
  exists out',
    Console.yn_prompt 3 (py "Play again?") (Some (py "Yes")) true
      {| Console.stdin := [py "maybe"; py " y"] ++ py "" :: [py "n"];
         Console.stdout := [] |}
    = Some (Console.Returned true
              {| Console.stdin := [py "n"]; Console.stdout := out' |}).
Proof.
  assert (H1 : Forall (fun l => yn_reading (Some (py "Yes")) l = None)
                 [py "maybe"; py " y"]) by (repeat constructor).
  assert (H2 : yn_reading (Some (py "Yes")) (py "") = Some true)
    by reflexivity.
  assert (H3 : length [py "maybe"; py " y"] < 3) by (simpl; lia).
  split; [exact H1|]. split; [exact H2|]. split; [exact H3|].
  exact (yn_prompt_first_answer (py "Play again?") (Some (py "Yes")) true
           _ (py "") true [py "n"] [] 3 H1 H2 H3).
Defined.

(** ** The game on the console *)

Section ConsoleGame.

Lemma stdin_print (text : str) (c : Console.console) :
  Console.stdin (Console.print text c) = Console.stdin c.
Proof. reflexivity. Qed.

Lemma stdin_print_hints (show : bool) (n : nat) (hints : str)
    (wl : list ascii) (c : Console.console) :
  Console.stdin (Console.print_hints show n hints wl c) = Console.stdin c.
Proof.
  unfold Console.print_hints.
  now destruct (show && negb (Console.str_eqb hints (repeat "!" n))).
Qed.

Lemma game_loop_step (fuel : nat) (rnd : nat -> nat) (c : Console.console)
    (words : list str) (correct : str) (n : nat) (wild show auto : bool)
    (prompt : option str) (counter : nat) (cl wl : list ascii) :
  Console.game_loop (S fuel) rnd c words correct n wild show auto prompt
    counter cl wl
  = match Console.ask fuel rnd c words n wild auto prompt with
    | Console.Unfinished => None
    | Console.Failed e c => Some (Console.Raised e c)
    | Console.Again c =>
        Console.game_loop fuel rnd c words correct n wild show auto prompt
          counter cl wl
    | Console.Guess guess rnd c =>
        let '(cl, wl) := Console.sort_out_letters guess correct cl wl in
        let cl := Console.sorted_set cl in
        let wl := Console.sorted_set wl in
        match match_check guess correct with
        | Raise e => Some (Console.Raised (Console.Python e) c)
        | Ok (state, hints) =>
            let c := Console.print_hints show n hints wl c in
            if state
            then Some (Console.Returned counter
                         (Console.print (Console.won_message counter) c))
            else if auto
            then
              match reduce_list words guess hints with
              | Raise e => Some (Console.Raised (Console.Python e) c)
              | Ok words =>
                  if negb (truthy_list words)
                  then Some (Console.Raised
                               (Console.Python Exception_no_word_left) c)
                  else Console.game_loop fuel rnd c words correct n wild
                         show auto prompt (counter + 1) cl wl
              end
            else Console.game_loop fuel rnd c words correct n wild show
                   auto prompt (counter + 1) cl wl
        end
    end.
Proof. reflexivity. Qed.

(** With the automatic solver the game on the console makes the guesses,
    returns the count and raises the exceptions of [game_routine], and
    reads nothing. *)
Lemma console_auto_loop (correct : str) (n : nat) (wild show : bool)
    (prompt : option str) (fuel : nat) :
  forall (rnd : nat -> nat) (c : Console.console) (words : list str)
         (counter : nat) (cl wl : list ascii),
    match game_loop fuel rnd words correct counter with
    | None =>
        Console.game_loop fuel rnd c words correct n wild show true prompt
          counter cl wl = None
    | Some (Ok k) =>
        exists c',
          Console.game_loop fuel rnd c words correct n wild show true
            prompt counter cl wl = Some (Console.Returned k c') /\
          Console.stdin c' = Console.stdin c
    | Some (Raise e) =>
        exists c',
          Console.game_loop fuel rnd c words correct n wild show true
            prompt counter cl wl
          = Some (Console.Raised (Console.Python e) c') /\
          Console.stdin c' = Console.stdin c
    end.
Proof.
  induction fuel as [|fuel IH]; intros rnd c words counter cl wl;
    [reflexivity|].
  rewrite game_loop_step. unfold Console.ask.
  cbn [game_loop].
  destruct (random_choice (rnd 0) words) as [guess|e];
    [|exists c; now split].
  destruct (Console.sort_out_letters guess correct cl wl) as [cl' wl'].
  destruct (match_check guess correct) as [[state hints]|e];
    [|eexists; split; [reflexivity|apply stdin_print]].
  cbv zeta.
  destruct state.
  - eexists. split; [reflexivity|].
    now rewrite stdin_print, stdin_print_hints, stdin_print.
  - destruct (reduce_list words guess hints) as [words'|e].
    + destruct (negb (truthy_list words')).
      * eexists. split; [reflexivity|].
        now rewrite stdin_print_hints, stdin_print.
      * specialize (IH (fun i => rnd (S i))
                      (Console.print_hints show n hints
                         (Console.sorted_set wl') (Console.print guess c))
                      words' (counter + 1)
                      (Console.sorted_set cl') (Console.sorted_set wl')).
        destruct (game_loop fuel _ words' correct (counter + 1))
          as [[k|e]|].
        -- destruct IH as (c' & -> & Hc). exists c'. split; [reflexivity|].
           now rewrite Hc, stdin_print_hints, stdin_print.
        -- destruct IH as (c' & -> & Hc). exists c'. split; [reflexivity|].
           now rewrite Hc, stdin_print_hints, stdin_print.
        -- exact IH.
    + eexists. split; [reflexivity|].
      now rewrite stdin_print_hints, stdin_print.
Qed.

End ConsoleGame.

(** X22: the automatic solver on the console.  With [auto_solver] set,
    [game_routine] with its console reads none of the typed lines, and it
    returns the count or raises the exception that the loop of the solver
    gives for the same dictionary, target and random numbers, whatever the
    other settings. *)
Theorem console_game_auto_solver (fuel : nat) (rnd : nat -> nat)
    (c : Console.console) (words : list str) (correct : str) (n : nat)
    (wild show : bool) (prompt : option str) :
  match game_routine fuel rnd words correct with
  | None =>
      Console.game_routine fuel rnd c words correct n wild show true prompt
      = None
  | Some (Ok k) =>
      exists c',
        Console.game_routine fuel rnd c words correct n wild show true
          prompt = Some (Console.Returned k c') /\
        Console.stdin c' = Console.stdin c
  | Some (Raise e) =>
      exists c',
        Console.game_routine fuel rnd c words correct n wild show true
          prompt = Some (Console.Raised (Console.Python e) c') /\
        Console.stdin c' = Console.stdin c
  end.
Proof. apply console_auto_loop. Qed.

(** ** The game played by hand *)

Section ByHand.

Variable words : list str.
Variable correct : str.
Variable wild show : bool.
Variable prompt : option str.
Variable rnd : nat -> nat.

Let n := length correct.

Lemma first_of_length (lines : list str) :
  Forall (fun l => length l <> n) lines \/
  exists wrong l after,
    lines = wrong ++ l :: after /\
    Forall (fun l => length l <> n) wrong /\ length l = n.
Proof.
  induction lines as [|x lines IH]; [left; constructor|].
  destruct (Nat.eq_dec (length x) n) as [Hx | Hx].
  - right. exists [], x, lines. repeat split; auto.
  - destruct IH as [Hall | (wrong & l & after & -> & Hw & Hl)].
    + left. now constructor.
    + right. exists (x :: wrong), l, after. repeat split; auto.
Qed.

Lemma not_taken_wrong_length (lines : list str) :
  Forall (fun l => length l <> n) lines ->
  List.filter (taken words n wild) lines = [].
Proof.
  induction 1 as [|l lines Hl _ IH]; simpl; [reflexivity|].
  unfold taken at 1. apply Nat.eqb_neq in Hl. now rewrite Hl.
Qed.

Lemma upper_length (s : str) : length (upper s) = length s.
Proof. apply length_map. Qed.

(** What [ask] gives in the game played by hand when the next line of the
    required length is [l]. *)
Lemma ask_by_hand (fuel : nat) (wrong : list str) (l : str)
    (after out : list str) :
  Forall (fun l => length l <> n) wrong -> length l = n ->
  length wrong < fuel ->
  exists out',
    Console.ask fuel rnd
      {| Console.stdin := wrong ++ l :: after; Console.stdout := out |}
      words n wild false prompt
    = if taken words n wild l
      then Console.Guess (upper l) rnd
             {| Console.stdin := after; Console.stdout := out' |}
      else Console.Again
             (Console.print (py "Word is not part of the dictionary!")
                {| Console.stdin := after; Console.stdout := out' |}).
Proof.
  intros Hw Hl Hf.
  destruct (proj1 (input_check_first_of_length n prompt wrong l after out
                     fuel Hw Hf) Hl) as (out' & E & _).
  exists out'. unfold Console.ask. rewrite E.
  unfold taken. rewrite Hl, Nat.eqb_refl. simpl.
  now destruct wild, (Console.str_in (upper l) words).
Qed.

Lemma match_check_by_hand (l : str) :
  length l = n ->
  exists hints, match_check (upper l) correct = Ok (wins correct l, hints).
Proof.
  intros Hl. unfold wins.
  rewrite match_check_spec by (rewrite upper_length; lia).
  destruct (forallb _ _); eexists; reflexivity.
Qed.

Lemma game_by_hand (usr : str) (rest : list str) (fuel : nat) :
  taken words n wild usr = true -> wins correct usr = true ->
  forall (before : list str) (counter : nat) (cl wl : list ascii)
         (out : list str),
    length before + 2 <= fuel ->
    Forall (fun l => taken words n wild l = true -> wins correct l = false)
      before ->
    exists c',
      Console.game_loop fuel rnd
        {| Console.stdin := before ++ usr :: rest; Console.stdout := out |}
        words correct n wild show false prompt counter cl wl
      = Some (Console.Returned
                (counter + length (List.filter (taken words n wild) before))
                c') /\
      Console.stdin c' = rest.
Proof.
  intros Hu Hwin.
  assert (Hlu : length usr = n).
  { unfold taken in Hu. apply andb_true_iff in Hu as [Hu _].
    now apply Nat.eqb_eq. }
  induction fuel as [|fuel IH]; intros before counter cl wl out Hf Hb;
    [lia|].
  rewrite game_loop_step.
  destruct (first_of_length before)
    as [Hall | (wrong & l & after & -> & Hw & Hl)].
  - destruct (ask_by_hand fuel before usr rest out Hall Hlu) as (out' & ->);
      [lia|].
    rewrite Hu.
    destruct (Console.sort_out_letters (upper usr) correct cl wl)
      as [cl' wl'].
    destruct (match_check_by_hand usr Hlu) as (hints & ->).
    rewrite Hwin. cbv zeta.
    rewrite not_taken_wrong_length by exact Hall.
    eexists. split; [now rewrite Nat.add_0_r|].
    now rewrite stdin_print, stdin_print_hints.
  - rewrite <- app_assoc, <- app_comm_cons.
    rewrite length_app in Hf. simpl in Hf.
    destruct (ask_by_hand fuel wrong l (after ++ usr :: rest) out Hw Hl)
      as (out' & ->); [lia|].
    rewrite List.filter_app, (not_taken_wrong_length wrong Hw). simpl.
    apply Forall_app in Hb as [_ Hb].
    inversion Hb as [|? ? Hlw Hafter]; subst.
    destruct (taken words n wild l) eqn:Et.
    + destruct (Console.sort_out_letters (upper l) correct cl wl)
        as [cl' wl'].
      destruct (match_check_by_hand l Hl) as (hints & ->).
      rewrite (Hlw eq_refl). cbv zeta.
      unfold Console.print_hints, Console.print.
      cbn [Console.stdin Console.stdout].
      match goal with
      | |- context [Console.game_loop fuel rnd ?c] =>
          destruct c as [i o] eqn:Ec
      end.
      assert (i = after ++ usr :: rest) as ->.
      { destruct (show && _) in Ec; now injection Ec as <- _. }
      destruct (IH after (counter + 1) (Console.sorted_set cl')
                  (Console.sorted_set wl') o) as (c' & -> & Hc);
        [lia | exact Hafter|].
      exists c'. split; [|exact Hc]. simpl. do 2 f_equal. lia.
    + unfold Console.print. cbn [Console.stdin Console.stdout].
      match goal with
      | |- context [{| Console.stdin := _; Console.stdout := ?o |}] =>
          destruct (IH after counter cl wl o) as (c' & -> & Hc);
          [lia | exact Hafter|]
      end.
      now exists c'.
Qed.

End ByHand.

(** X23: the count of the game played by hand.  With [auto_solver] off and
    the length of the target as the required length, the game ends at the
    first typed line that counts as a guess and is reported as a full
    match, and it returns one more than the number of lines before it that
    count as guesses.  A line counts when it has the required length and,
    unless any guess is allowed, is in the dictionary once put in upper
    case; the other lines are answered and leave the count as it is.  The
    lines after the winning one are left to be read. *)
Theorem game_by_hand_counts_taken_guesses (words : list str)
    (correct : str) (wild show : bool) (prompt : option str)
    (rnd : nat -> nat) (before : list str) (usr : str)
    (rest out : list str) (fuel : nat) :
  Forall (fun l => taken words (length correct) wild l = true ->
                   wins correct l = false) before ->
  taken words (length correct) wild usr = true ->
  wins correct usr = true ->
  length before + 2 <= fuel ->
  exists c',
    Console.game_routine fuel rnd
      {| Console.stdin := before ++ usr :: rest; Console.stdout := out |}
      words correct (length correct) wild show false prompt
    = Some (Console.Returned
              (1 + length (List.filter (taken words (length correct) wild)
                             before))
              c') /\
    Console.stdin c' = rest.
Proof.
  intros Hb Hu Hw Hf. unfold Console.game_routine.
  now apply game_by_hand.
Qed.

Lemma game_by_hand_counts_taken_guesses_witness :
  let words := [py "CRANE"; py "TRACE"] in
  let before := [py "abc"; py "zzzzz"; py "crane"; py "tr'ce"] in
  Forall (fun l => taken words (length (py "TRACE")) false l = true ->
                   wins (py "TRACE") l = false) before /\
  taken words (length (py "TRACE")) false (py "trace") = true /\
  wins (py "TRACE") (py "trace") = true /\
  length before + 2 <= 6 /\
  exists c',
    Console.game_routine 6 (fun i => i)
      {| Console.stdin := before ++ py "trace" :: [py "n"];
         Console.stdout := [] |}
      words (py "TRACE") (length (py "TRACE")) false true false None
    = Some (Console.Returned 2 c') /\
    Console.stdin c' = [py "n"].
Proof.
  intros words before.
  assert (H1 : Forall (fun l => taken words (length (py "TRACE")) false l
                                = true -> wins (py "TRACE") l = false)
                 before)
    by (repeat constructor; vm_compute; intros; congruence).
  assert (H2 : taken words (length (py "TRACE")) false (py "trace") = true)
    by reflexivity.
  assert (H3 : wins (py "TRACE") (py "trace") = true) by reflexivity.
  assert (H4 : length before + 2 <= 6) by (simpl; lia).
  split; [exact H1|]. split; [exact H2|]. split; [exact H3|].
  split; [exact H4|].
  exact (game_by_hand_counts_taken_guesses words (py "TRACE") false true
           None (fun i => i) before (py "trace") [py "n"] [] 6
           H1 H2 H3 H4).
Defined.

(** ** The letters shown after a guess *)

Section ShownLetters.

Lemma code_injective (a b : ascii) :
  nat_of_ascii a = nat_of_ascii b -> a = b.
Proof.
  intros H. rewrite <- (ascii_nat_embedding a), <- (ascii_nat_embedding b).
  now rewrite H.
Qed.

Lemma insert_letter_In (l x : ascii) (s : list ascii) :
  In x (Console.insert_letter l s) <-> x = l \/ In x s.
Proof.
  induction s as [|y s IH]; simpl; [intuition|].
  destruct (Nat.ltb_spec (nat_of_ascii l) (nat_of_ascii y)) as [Hlt | Hge].
  - simpl. intuition.
  - destruct (Nat.eqb_spec (nat_of_ascii l) (nat_of_ascii y)) as [He | Hne].
    + apply code_injective in He. subst y. simpl. intuition.
    + simpl. rewrite IH. intuition.
Qed.

Lemma insert_letter_sorted (l : ascii) (s : list ascii) :
  StronglySorted code_lt s ->
  StronglySorted code_lt (Console.insert_letter l s).
Proof.
  induction 1 as [|y s Hs IH Hy']; simpl; [repeat constructor|].
  pose proof Hy' as Hy. rewrite List.Forall_forall in Hy.
  destruct (Nat.ltb_spec (nat_of_ascii l) (nat_of_ascii y)) as [Hlt | Hge].
  - constructor; [now constructor|].
    constructor; [exact Hlt|]. apply List.Forall_forall. intros z Hz.
    specialize (Hy z Hz). unfold code_lt in *. lia.
  - destruct (Nat.eqb_spec (nat_of_ascii l) (nat_of_ascii y)) as [He | Hne].
    + now constructor.
    + constructor; [exact IH|]. apply List.Forall_forall. intros z Hz.
      apply insert_letter_In in Hz as [-> | Hz].
      * unfold code_lt. lia.
      * now apply Hy.
Qed.

Lemma sorted_set_sorted (letters : list ascii) :
  StronglySorted code_lt (Console.sorted_set letters).
Proof.
  induction letters as [|l letters IH]; simpl; [constructor|].
  now apply insert_letter_sorted.
Qed.

Lemma sorted_set_In (letters : list ascii) (x : ascii) :
  In x (Console.sorted_set letters) <-> In x letters.
Proof.
  induction letters as [|l letters IH]; simpl; [tauto|].
  rewrite insert_letter_In, IH. intuition.
Qed.

Lemma sort_out_letters_spec (guess correct : str) (cl wl : list ascii) :
  Console.sort_out_letters guess correct cl wl
  = (cl ++ List.filter (fun l => contains l correct) guess,
     wl ++ List.filter (fun l => negb (contains l correct)) guess).
Proof.
  revert cl wl.
  induction guess as [|l guess IH]; intros cl wl; simpl.
  - now rewrite !app_nil_r.
  - destruct (contains l correct); simpl; rewrite IH;
      now rewrite <- app_assoc.
Qed.

End ShownLetters.

(** X24: the letters kept by [game_routine] after a guess.  The two lists
    are in the strict order of the character codes, so without duplicates.
    The list of correct letters has the letters it had before and the
    letters of the guess that occur in the target; the list of wrong
    letters, which is the one shown, has the letters it had before and the
    letters of the guess that do not occur in the target. *)
Theorem letters_after_a_guess (guess correct : str) (cl wl : list ascii) :
  let lists := Console.sort_out_letters guess correct cl wl in
  let correct_letters := Console.sorted_set (fst lists) in
  let wrong_letters := Console.sorted_set (snd lists) in
  StronglySorted code_lt correct_letters /\
  StronglySorted code_lt wrong_letters /\
  (forall l, In l correct_letters <->
             In l cl \/ (In l guess /\ In l correct)) /\
  (forall l, In l wrong_letters <->
             In l wl \/ (In l guess /\ ~ In l correct)).
Proof.
  intros lists correct_letters wrong_letters.
  unfold correct_letters, wrong_letters, lists.
  rewrite sort_out_letters_spec. simpl.
  split; [apply sorted_set_sorted|]. split; [apply sorted_set_sorted|].
  split; intros l; rewrite sorted_set_In, in_app_iff, List.filter_In.
  - now rewrite contains_In.
  - rewrite negb_true_iff.
    destruct (contains l correct) eqn:E.
    + apply contains_In in E. intuition congruence.
    + assert (~ In l correct)
        by (intros H; apply contains_In in H; congruence).
      intuition.
Qed.

(** ** [main] *)

(** X25: a whole run with the automatic solver.  When the file loads into a
    dictionary of upper-case words of one length that is not empty, [main]
    with [auto_solver] set plays one game and returns a list with one
    number, the number of guesses, which is between 1 and the size of the
    dictionary; it raises nothing and reads none of the typed lines,
    whatever the random numbers and the other settings. *)
Theorem main_auto_solver (fuel : nat) (rnd : nat -> nat)
    (c : Console.console) (file words : list str) (n : nat)
    (wild show check_input : bool) (comment_char : str)
    (prompt : option str) :
  read_file_as_words_list file check_input comment_char = Ok words ->
  words <> [] -> dictionary_of n words -> length words < fuel ->
  exists k c',
    Console.main fuel rnd c file wild show true check_input comment_char
      prompt = Some (Console.Returned [k] c') /\
    1 <= k <= length words /\
    Console.stdin c' = Console.stdin c.
Proof.
  intros Hread Hne Hd Hf. unfold Console.main. rewrite Hread.
  destruct fuel as [|fuel]; [lia|]. cbn [Console.main_loop].
  destruct (random_choice_In (rnd 0) words Hne) as (correct & -> & Hin).
  cbv zeta. unfold Console.game_routine.
  match goal with
  | |- context [Console.game_loop fuel ?r ?c0 words correct ?m wild show
                  true prompt 1 [] []] =>
      pose proof (console_auto_loop correct m wild show prompt fuel r c0
                    words 1 [] []) as H;
      destruct (game_loop_wins correct n fuel r words 1 Hd Hin)
        as (k & Hk & E); [lia|]
  end.
  rewrite E in H. destruct H as (c' & -> & Hc).
  exists (1 + k), c'. split; [reflexivity|]. split; [lia|].
  now rewrite Hc, !stdin_print.
Qed.

Lemma main_auto_solver_witness :
  let file := [line "# words"; line "crane"; line "trace"; line "brace"] in
  let words := [py "CRANE"; py "TRACE"; py "BRACE"] in
  let c := {| Console.stdin := [py "typed"]; Console.stdout := [] |} in
  read_file_as_words_list file true (py "#") = Ok words /\
  words <> [] /\ dictionary_of 5 words /\ length words < 4 /\
  forall rnd,
    exists k c',
      Console.main 4 rnd c file false true true true (py "#") None
      = Some (Console.Returned [k] c') /\
      1 <= k <= 3 /\
      Console.stdin c' = [py "typed"].
Proof.
  intros file words c.
  assert (H1 : read_file_as_words_list file true (py "#") = Ok words)
    by reflexivity.
  assert (H2 : words <> []) by discriminate.
  assert (H3 : dictionary_of 5 words) by reflexivity.
  assert (H4 : length words < 4) by (simpl; lia).
  split; [exact H1|]. split; [exact H2|]. split; [exact H3|].
  split; [exact H4|].
  intros rnd.
  exact (main_auto_solver 4 rnd c file words 5 false true true (py "#")
           None H1 H2 H3 H4).
Defined.

(** X26: [main] on a file without words.  With checks, a file in which
    every line is blank or a comment ends [main] with the [ValueError] for
    an empty input.  Without checks, an empty file loads into an empty list
    and [main] ends with the [IndexError] that [random.choice] raises on
    it.  In both cases nothing is read or written. *)
Theorem main_without_words (fuel : nat) (rnd : nat -> nat)
    (c : Console.console) (file : list str) (wild show auto : bool)
    (comment_char : str) (prompt : option str) :
  (kept_words comment_char file = [] ->
   Console.main fuel rnd c file wild show auto true comment_char prompt
   = Some (Console.Raised (Console.Python ValueError_empty_input) c)) /\
  (file = [] -> 0 < fuel ->
   Console.main fuel rnd c file wild show auto false comment_char prompt
   = Some (Console.Raised (Console.Python IndexError) c)).
Proof.
  split.
  - intros H. unfold Console.main. now rewrite read_checked, H.
  - intros -> Hf. destruct fuel as [|fuel]; [lia | reflexivity].
Qed.

Lemma main_without_words_witness :
  let c := {| Console.stdin := [py "typed"]; Console.stdout := [] |} in
  Console.main 1 (fun i => i) c [line "# only a comment"; line "  "]
    false true false true (py "#") None
  = Some (Console.Raised (Console.Python ValueError_empty_input) c) /\
  Console.main 1 (fun i => i) c [] false true false false (py "#") None
  = Some (Console.Raised (Console.Python IndexError) c).
Proof.
  intros c. split.
  - apply (proj1 (main_without_words 1 (fun i => i) c _ false true false
                    (py "#") None)).
    reflexivity.
  - apply (proj2 (main_without_words 1 (fun i => i) c [] false true false
                    (py "#") None)); [reflexivity | lia].
Defined.
